(** * NovelScraper: a shallow embedding of [NovelScraper.py]

    The scraper is a Python class whose methods read and write a frontier
    file ([Links.txt]), list a directory of finished batches, talk to a web
    server, prompt the operator on the terminal and collect chapters in
    memory.  Methods are embedded as functions over an explicit state
    ([State]) next to the immutable configuration ([Config]).  The web
    server is an oracle: a list of answers, one per GET request; the
    terminal is the list of lines still to be typed.

    Python [str] is embedded as [list ascii], a character being a code
    point below 256.  Python [int] is [Z]. *)

From Stdlib Require Import List Ascii String Bool Arith ZArith Lia Permutation.
From Stdlib Require Import DecimalString DecimalZ DecimalN.
Import ListNotations.

Local Open Scope string_scope.
Local Open Scope list_scope.

(** ** Strings *)

Definition str := list ascii.

Coercion list_ascii_of_string : string >-> list.

Definition LF : ascii := ascii_of_nat 10.
Definition CR : ascii := ascii_of_nat 13.

Definition ascii_eqb (a b : ascii) : bool := Ascii.eqb a b.

Fixpoint str_eqb (s t : str) : bool :=
  match s, t with
  | [], [] => true
  | a :: s', b :: t' => ascii_eqb a b && str_eqb s' t'
  | _, _ => false
  end.

(** [str.isspace] on the code points below 256. *)
Definition is_space (c : ascii) : bool :=
  let n := nat_of_ascii c in
  ((9 <=? n) && (n <=? 13) || (28 <=? n) && (n <=? 32)
   || (n =? 133) || (n =? 160))%nat.

Fixpoint drop_while (p : ascii -> bool) (s : str) : str :=
  match s with
  | [] => []
  | c :: s' => if p c then drop_while p s' else s
  end.

Definition lstrip (s : str) : str := drop_while is_space s.
Definition rstrip (s : str) : str := rev (drop_while is_space (rev s)).
(** [s.strip()] *)
Definition strip (s : str) : str := rstrip (lstrip s).

(** [str.lower] on the code points below 256: A-Z and the accented capitals
    of Latin-1 (192-222 without the multiplication sign 215) move up by 32. *)
Definition lower_char (c : ascii) : ascii :=
  let n := nat_of_ascii c in
  if ((65 <=? n) && (n <=? 90)
      || (192 <=? n) && (n <=? 222) && negb (n =? 215))%nat
  then ascii_of_nat (n + 32) else c.

Definition lower (s : str) : str := map lower_char s.

Fixpoint starts_with (p s : str) : bool :=
  match p, s with
  | [], _ => true
  | a :: p', b :: s' => ascii_eqb a b && starts_with p' s'
  | _ :: _, [] => false
  end.

(** [p in s] for strings. *)
Fixpoint contains (p s : str) : bool :=
  starts_with p s ||
  match s with
  | [] => false
  | _ :: s' => contains p s'
  end.

(** [s.split("\n")]: always at least one piece. *)
Fixpoint split_lines (s : str) : list str :=
  match s with
  | [] => [[]]
  | c :: s' =>
      if ascii_eqb c LF then [] :: split_lines s'
      else match split_lines s' with
           | [] => [[c]]
           | l :: ls => (c :: l) :: ls
           end
  end.

(** ["\n".join(pieces)] *)
Fixpoint join_lines (pieces : list str) : str :=
  match pieces with
  | [] => []
  | [l] => l
  | l :: ls => l ++ LF :: join_lines ls
  end.

(** ** Text files

    A file opened in text mode is read with universal newlines: a carriage
    return, alone or followed by a line feed, arrives as one line feed. *)
Fixpoint universal_newlines (s : str) : str :=
  match s with
  | [] => []
  | c :: s' =>
      if ascii_eqb c CR then
        match s' with
        | d :: _ => if ascii_eqb d LF then universal_newlines s'
                    else LF :: universal_newlines s'
        | [] => [LF]
        end
      else c :: universal_newlines s'
  end.

(** The lines of a text, each with its terminator when it has one. *)
Fixpoint keepends (s : str) : list str :=
  match s with
  | [] => []
  | c :: s' =>
      if ascii_eqb c LF then [c] :: keepends s'
      else match keepends s' with
           | [] => [[c]]
           | l :: ls => (c :: l) :: ls
           end
  end.

(** [file.readlines()] on the stored characters of a file. *)
Definition readlines (stored : str) : list str :=
  keepends (universal_newlines stored).

(** ** Integers as text *)

(** [str(n)], as the f-strings print an [int]. *)
Definition format_int (z : Z) : str :=
  list_ascii_of_string (NilEmpty.string_of_int (Z.to_int z)).

Definition is_digit (c : ascii) : bool :=
  let n := nat_of_ascii c in ((48 <=? n) && (n <=? 57))%nat.

Definition digit_uint (c : ascii) (d : Decimal.uint) : Decimal.uint :=
  match (nat_of_ascii c - 48)%nat with
  | 0%nat => Decimal.D0 d | 1%nat => Decimal.D1 d | 2%nat => Decimal.D2 d
  | 3%nat => Decimal.D3 d | 4%nat => Decimal.D4 d | 5%nat => Decimal.D5 d
  | 6%nat => Decimal.D6 d | 7%nat => Decimal.D7 d | 8%nat => Decimal.D8 d
  | _ => Decimal.D9 d
  end.

Fixpoint uint_of_digits (ds : str) : Decimal.uint :=
  match ds with
  | [] => Decimal.Nil
  | c :: ds' => digit_uint c (uint_of_digits ds')
  end.

(** [int(ds)] for a run of decimal digits. *)
Definition int_of_digits (ds : str) : Z := Z.of_N (N.of_uint (uint_of_digits ds)).

(** The longest run of digits at the head of [s], and what follows it. *)
Fixpoint span_digits (s : str) : str * str :=
  match s with
  | c :: s' =>
      if is_digit c then let (ds, rest) := span_digits s' in (c :: ds, rest)
      else ([], s)
  | [] => ([], [])
  end.

(** [re.match(r"(\d+)-(\d+)", name)] and [map(int, match.groups())]: the
    pattern is anchored at the start of the name only, and each [\d+] is
    greedy, so it takes the longest run of digits. *)
Definition match_range (name : str) : option (Z * Z) :=
  let (ds1, rest) := span_digits name in
  match ds1, rest with
  | _ :: _, c :: rest' =>
      if ascii_eqb c "-"%char then
        let (ds2, _) := span_digits rest' in
        match ds2 with
        | _ :: _ => Some (int_of_digits ds1, int_of_digits ds2)
        | [] => None
        end
      else None
  | _, _ => None
  end.

(** ** Outcomes *)

Inductive exn := EOFError | UnboundLocalError | ZeroDivisionError | TypeError.

(** What a call comes to.  [Waiting] is the end of the observation: the
    retry loop asked for a page and the oracle has no further answer. *)
Inductive outcome (A : Type) :=
| Returned (a : A)
| Raised (e : exn)
| Waiting.

Arguments Returned {A} a.
Arguments Raised {A} e.
Arguments Waiting {A}.

(** ** The object and its environment *)

(** An [EpubHtml] item. *)
Record EpubHtml := {
  title : str;
  file_name : str;
  lang : str;
  content : str
}.

Inductive log_entry :=
| LogNoMoreChapters (webpage_no : Z)
| LogFailedGet (web_url : str)
| LogRetrying (web_url : str) (retry_no : Z)
| LogScraped (webpage_no : Z) (web_url : str) (retry_no : Z)
| LogUnable (webpage_no : Z)
| LogNewURL (web_url : str).

(** The attributes set once in [__init__]. *)
Record Config := {
  novel_name : str;
  button_tag : str;
  domain_name : str;
  text_tag : str;
  max_retries : Z;
  initial_url : option str;
  batch_size : Z
}.

(** The attributes that change, and the part of the world the methods
    touch.  [links_txt] is the stored text of the file at [urls_file_path]
    ([None]: no such file).  [listing] is the content of the novel's output
    directory, the directory [output_file_path] names until
    [config_ebook_path] has run: each entry with the answer of
    [os.path.isdir] ([None]: not a directory).  [stdin] holds the lines the
    operator will type.  [escalations] is a ghost field: the retry counter
    at each call of [get_choice]. *)
Record State := {
  output_file_path : str;
  epub_items : list EpubHtml;
  chapters : list EpubHtml;
  links_txt : option str;
  listing : option (list (str * bool));
  stdin : list str;
  log : list log_entry;
  epub_files : list (str * list EpubHtml);
  escalations : list Z
}.

Definition set_output_file_path (st : State) (p : str) : State :=
  {| output_file_path := p; epub_items := epub_items st;
     chapters := chapters st; links_txt := links_txt st;
     listing := listing st; stdin := stdin st; log := log st;
     epub_files := epub_files st; escalations := escalations st |}.

Definition set_links_txt (st : State) (f : option str) : State :=
  {| output_file_path := output_file_path st; epub_items := epub_items st;
     chapters := chapters st; links_txt := f;
     listing := listing st; stdin := stdin st; log := log st;
     epub_files := epub_files st; escalations := escalations st |}.

Definition set_listing (st : State) (l : option (list (str * bool))) : State :=
  {| output_file_path := output_file_path st; epub_items := epub_items st;
     chapters := chapters st; links_txt := links_txt st;
     listing := l; stdin := stdin st; log := log st;
     epub_files := epub_files st; escalations := escalations st |}.

Definition set_stdin (st : State) (l : list str) : State :=
  {| output_file_path := output_file_path st; epub_items := epub_items st;
     chapters := chapters st; links_txt := links_txt st;
     listing := listing st; stdin := l; log := log st;
     epub_files := epub_files st; escalations := escalations st |}.

(** [logging.info], [logging.warning], [logging.error] *)
Definition logging (st : State) (e : log_entry) : State :=
  {| output_file_path := output_file_path st; epub_items := epub_items st;
     chapters := chapters st; links_txt := links_txt st;
     listing := listing st; stdin := stdin st; log := log st ++ [e];
     epub_files := epub_files st; escalations := escalations st |}.

(** [self.epub_book.add_item(chapter); self.chapters.append(chapter)] *)
Definition add_chapter (st : State) (chapter : EpubHtml) : State :=
  {| output_file_path := output_file_path st;
     epub_items := epub_items st ++ [chapter];
     chapters := chapters st ++ [chapter]; links_txt := links_txt st;
     listing := listing st; stdin := stdin st; log := log st;
     epub_files := epub_files st; escalations := escalations st |}.

Definition add_epub_file (st : State) (path : str) (spine : list EpubHtml)
  : State :=
  {| output_file_path := output_file_path st; epub_items := epub_items st;
     chapters := chapters st; links_txt := links_txt st;
     listing := listing st; stdin := stdin st; log := log st;
     epub_files := epub_files st ++ [(path, spine)];
     escalations := escalations st |}.

Definition note_escalation (st : State) (retry_no : Z) : State :=
  {| output_file_path := output_file_path st; epub_items := epub_items st;
     chapters := chapters st; links_txt := links_txt st;
     listing := listing st; stdin := stdin st; log := log st;
     epub_files := epub_files st;
     escalations := escalations st ++ [retry_no] |}.

(** [input(prompt)]: the next line typed, [EOFError] at the end of input. *)
Definition input (st : State) : outcome str * State :=
  match stdin st with
  | [] => (Raised EOFError, st)
  | line :: rest => (Returned line, set_stdin st rest)
  end.

(** [os.path.join(a, b)] on POSIX paths. *)
Definition path_join (a b : str) : str :=
  if starts_with "/" b then b
  else match rev a with
       | [] => b
       | c :: _ => if ascii_eqb c "/"%char then a ++ b else a ++ "/" ++ b
       end.

(** [os.path.basename(p)] *)
Fixpoint basename (p : str) : str :=
  match p with
  | [] => []
  | c :: p' => if contains "/" p then basename p' else p
  end.

(** ** Frontier file *)

Definition write_to_file (st : State) (value : option str) : State :=
  match value with
  | None => st
  | Some v =>
      match links_txt st with
      | Some stored =>
          match rev (readlines stored) with
          | last_line :: _ =>
              if str_eqb (strip last_line) v then st
              else set_links_txt st (Some (stored ++ v ++ [LF]))
          | [] => set_links_txt st (Some (stored ++ v ++ [LF]))
          end
      | None =>
          (* FileNotFoundError: the directory is made, the append creates
             the file *)
          set_links_txt st (Some (v ++ [LF]))
      end
  end.

Definition nonblank (line : str) : bool :=
  match strip line with [] => false | _ :: _ => true end.

Definition get_url (st : State) : outcome (option str) * State :=
  match links_txt st with
  | Some stored =>
      let lines := map strip (filter nonblank (readlines stored)) in
      match rev lines with
      | last_line :: _ => (Returned (Some last_line), st)
      | [] => (Returned None, st)
      end
  | None =>
      match input st with
      | (Returned chapter_url, st1) =>
          (Returned (Some chapter_url), write_to_file st1 (Some chapter_url))
      | (Raised e, st1) => (Raised e, st1)
      | (Waiting, st1) => (Waiting, st1)
      end
  end.

(** ** Finished batches *)

Definition py_max (a b : Z) : Z := if (a <? b)%Z then b else a.

Fixpoint highest_end (entries : list (str * bool)) (highest_value : option Z)
  : option Z :=
  match entries with
  | [] => highest_value
  | (folder_name, is_dir) :: entries' =>
      highest_end entries'
        match match_range folder_name with
        | Some (_, e) =>
            if is_dir then
              match highest_value with
              | None => Some e
              | Some h => Some (py_max h e)
              end
            else highest_value
        | None => highest_value
        end
  end.

(** As [scrape_worker] calls it, before [config_ebook_path] has moved
    [output_file_path]: the directory listed is the novel's. *)
Definition get_last_chapter_scraped (st : State) : option Z :=
  match listing st with
  | None => None
  | Some entries => highest_end entries None
  end.

(** The first lines of [scrape_worker]. *)
Definition initial_chapter_number (st : State) : Z :=
  match get_last_chapter_scraped st with
  | Some h => (h + 1)%Z
  | None => 1%Z
  end.

(** [f"{initial}-{end}"], the name of a batch directory. *)
Definition range_name (initial e : Z) : str :=
  format_int initial ++ "-" ++ format_int e.

Definition config_ebook_path (st : State) (initial e : Z) : State :=
  set_output_file_path st
    (path_join (output_file_path st) (range_name initial e)).

(** The [end] numbers [get_last_chapter_scraped] reads off a listing. *)
Fixpoint batch_ends (entries : list (str * bool)) : list Z :=
  match entries with
  | [] => []
  | (folder_name, is_dir) :: entries' =>
      match match_range folder_name with
      | Some (_, e) =>
          if is_dir then e :: batch_ends entries' else batch_ends entries'
      | None => batch_ends entries'
      end
  end.

(** The entry of a finished batch in the listing. *)
Definition batch_dir (r : Z * Z) : str * bool :=
  (range_name (fst r) (snd r), true).

(** ** Cleaners *)

(** What the cleaners take from [unicodedata] and [bs4]. *)
Class Libraries := {
  (** [unicodedata.normalize('NFKC', data)] *)
  normalize_NFKC : str -> str;
  (** a parsed document *)
  soup : Type;
  (** [BeautifulSoup(data, 'html.parser')] *)
  html_parser : str -> soup;
  (** an element of a parsed document *)
  element : Type;
  (** [data.find_all(name)]: the elements of that name, in document order *)
  find_all : soup -> str -> list element;
  (** [t.extract()]: element [t] leaves the document it is part of *)
  extract : soup -> element -> soup;
  (** [str(data)] *)
  decode : soup -> str
}.

Definition remove_pattern (data match_string : str) : str :=
  join_lines
    (filter (fun line => negb (contains (lower match_string) (lower line)))
       (split_lines data)).

(** The first alternative of the pattern that matches at the head of [s]. *)
Fixpoint first_match (exclusions : list str) (s : str) : option str :=
  match exclusions with
  | [] => None
  | e :: es => if starts_with e s then Some e else first_match es s
  end.

(** The alternatives that take characters away when they match. *)
Definition nonempty_alternatives (exclusions : list str) : list str :=
  filter (fun e => match e with [] => false | _ :: _ => true end) exclusions.

(** [re.sub] with the empty replacement: the text is scanned from the left;
    where alternatives that are not empty match, the first of them in the
    order of the pattern is taken, its characters are left out ([skip]
    counts the ones still to leave out) and the scan goes on behind them.
    An empty alternative ahead of it in the pattern changes nothing to
    that: its empty match is replaced by nothing, and the next attempt, at
    the same place, has to take at least one character. *)
Fixpoint sub_empty (exclusions : list str) (skip : nat) (s : str) : str :=
  match s with
  | [] => []
  | c :: s' =>
      match skip with
      | S k => sub_empty exclusions k s'
      | O =>
          match first_match (nonempty_alternatives exclusions) s with
          | Some e => sub_empty exclusions (List.length e - 1) s'
          | None => c :: sub_empty exclusions O s'
          end
      end
  end.

(** [re.sub('|'.join(map(re.escape, exclusions)), '', data)] *)
Definition remove_exclusions (data : str) (exclusions : list str) : str :=
  sub_empty exclusions O data.

Definition exclusions : list str :=
  [ list_ascii_of_string "Translator:";
    list_ascii_of_string "Atlas Studios";
    list_ascii_of_string "Editor:";
    list_ascii_of_string "EndlessFantasy Translation" ].

Section Cleaners.
Context {L : Libraries}.

Definition remove_last_p_tag (data : str) : soup :=
  let data := html_parser data in
  let p_tags := find_all data "p" in
  match rev p_tags with
  | last_p :: _ => extract data last_p
  | [] => data
  end.

Definition clean_text (data : str) : str :=
  let data := normalize_NFKC data in
  let data := remove_pattern data "libread.com" in
  let data := remove_exclusions data exclusions in
  decode (remove_last_p_tag data).
End Cleaners.

(** ** Pages *)

(** What the scraper looks up in a parsed page: the element
    [find("a", {"id": button_tag})] with its [href], which an anchor may
    lack, and the text [prettify()] gives for the element
    [find("div", {"class": text_tag})]. *)
Record Page := {
  next_button : option (option str);
  relevant_html_part : option str
}.

(** The answer to one GET request. *)
Inductive Response :=
| ConnectionError
| Got (page : Page).

(** The web server: the n-th request is answered by the n-th function,
    applied to the URL asked for. *)
Definition Web := list (str -> Response).

Definition find_next_chapter_link (cfg : Config) (page_soup : Page)
  : outcome (option str) :=
  match next_button page_soup with
  | Some (Some next_link) =>
      if contains (domain_name cfg) next_link then Returned (Some next_link)
      else Returned (Some (domain_name cfg ++ next_link))
  | Some None => Raised TypeError
  | None => Returned None
  end.

(** [user_choice.lower() in ("c", "y", "n")] *)
Definition is_choice (s : str) : bool :=
  str_eqb s "c" || str_eqb s "y" || str_eqb s "n".

(** The operator is asked until the answer is one of c, y, n. *)
Fixpoint get_choice (chapterNumber : Z) (typed : list str)
  : outcome str * list str :=
  match typed with
  | [] => (Raised EOFError, [])
  | user_choice :: rest =>
      if is_choice (lower user_choice) then (Returned (lower user_choice), rest)
      else get_choice chapterNumber rest
  end.

Section Scraper.
Context {L : Libraries}.
Variable cfg : Config.

Definition new_chapter (webpage_no : Z) (body : str) : EpubHtml :=
  {| title := "Chapter " ++ format_int webpage_no;
     file_name := "chapter" ++ format_int webpage_no ++ ".xhtml";
     lang := "en";
     content := "<h2>Chapter " ++ format_int webpage_no ++ "</h2>" ++ body |}.

Definition set_content (chapter : EpubHtml) (c : str) : EpubHtml :=
  {| title := title chapter; file_name := file_name chapter;
     lang := lang chapter; content := c |}.

(** The [while True] loop of [scrape_one_webpage].  [chapter] is the local
    variable of that name, [None] while nothing is bound to it. *)
Fixpoint scrape_loop (net : Web) (st : State) (web_url : str)
    (webpage_no retry_no : Z) (chapter : option EpubHtml) {struct net}
  : outcome (bool * option str) * State * Web :=
  match net with
  | [] => (Waiting, st, [])
  | get :: net =>
      match get web_url with
      | ConnectionError =>
          scrape_loop net (logging st (LogFailedGet web_url))
            web_url webpage_no retry_no chapter
      | Got parsed_html_webpage =>
          match find_next_chapter_link cfg parsed_html_webpage with
          | Raised e => (Raised e, st, net)
          | Waiting => (Waiting, st, net)
          | Returned next_url =>
              if (max_retries cfg =? 0)%Z then (Raised ZeroDivisionError, st, net)
              else
              let st :=
                if (8 mod max_retries cfg <? retry_no)%Z
                then logging st (LogRetrying web_url retry_no) else st in
              match relevant_html_part parsed_html_webpage with
              | Some prettified =>
                  let chapter := new_chapter webpage_no (clean_text prettified) in
                  (Returned (true, next_url),
                   logging (add_chapter st chapter)
                     (LogScraped webpage_no web_url retry_no),
                   net)
              | None =>
                  if (retry_no mod max_retries cfg =? 0)%Z then
                    let st := note_escalation st retry_no in
                    match get_choice webpage_no (stdin st) with
                    | (Returned user_choice, rest) =>
                        let st := set_stdin st rest in
                        if str_eqb (lower user_choice) "n" then
                          match chapter with
                          | None => (Raised UnboundLocalError, st, net)
                          | Some chapter =>
                              let chapter :=
                                set_content chapter
                                  ("<h2>Chapter " ++ format_int webpage_no
                                   ++ "</h2> <p> Chapter not available </p>") in
                              (Returned (true, next_url),
                               logging (add_chapter st chapter)
                                 (LogUnable webpage_no),
                               net)
                          end
                        else if str_eqb (lower user_choice) "c" then
                          match input st with
                          | (Returned new_url, st) =>
                              scrape_loop net (logging st (LogNewURL new_url))
                                new_url webpage_no (retry_no + 1) chapter
                          | (Raised e, st) => (Raised e, st, net)
                          | (Waiting, st) => (Waiting, st, net)
                          end
                        else
                          scrape_loop net st web_url webpage_no
                            (retry_no + 1) chapter
                    | (Raised e, rest) => (Raised e, set_stdin st rest, net)
                    | (Waiting, rest) => (Waiting, set_stdin st rest, net)
                    end
                  else
                    scrape_loop net st web_url webpage_no (retry_no + 1) chapter
              end
          end
      end
  end.

Definition scrape_one_webpage (net : Web) (st : State)
    (web_url : option str) (webpage_no retry_no : Z)
  : outcome (bool * option str) * State * Web :=
  match web_url with
  | None =>
      (Returned (false, None), logging st (LogNoMoreChapters webpage_no), net)
  | Some web_url => scrape_loop net st web_url webpage_no retry_no None
  end.

(** The [for] loop of [scrape_worker], [n] indices from [i] on still to
    go.  It hands back [last_valid_url] and the loop variable, which is
    bound once the body has run ([last_i]). *)
Fixpoint for_pages (n : nat) (i : Z) (net : Web) (st : State)
    (current_url last_valid_url : option str) (last_i : option Z)
  : outcome (option str * option Z) * State * Web :=
  match n with
  | O => (Returned (last_valid_url, last_i), st, net)
  | S n' =>
      match scrape_one_webpage net st current_url i 1 with
      | (Returned (has_more_pages, current_url), st, net) =>
          let last_valid_url :=
            match current_url with
            | Some _ => current_url
            | None => last_valid_url
            end in
          if has_more_pages
          then for_pages n' (i + 1) net st current_url last_valid_url (Some i)
          else (Returned (last_valid_url, Some i), st, net)
      | (Raised e, st, net) => (Raised e, st, net)
      | (Waiting, st, net) => (Waiting, st, net)
      end
  end.

Definition scrape_worker (batch_size : Z) (net : Web) (st : State)
  : outcome unit * State * Web :=
  let current_url := initial_url cfg in
  let last_valid_url := current_url in
  let initial := initial_chapter_number st in
  match for_pages (Z.to_nat batch_size) initial net st
          current_url last_valid_url None with
  | (Returned (last_valid_url, last_i), st, net) =>
      let st := write_to_file st last_valid_url in
      match last_i with
      | Some i => (Returned tt, config_ebook_path st initial i, net)
      | None => (Raised UnboundLocalError, st, net)
      end
  | (Raised e, st, net) => (Raised e, st, net)
  | (Waiting, st, net) => (Waiting, st, net)
  end.

(** [os.makedirs(self.output_file_path)] when nothing exists under that
    name: the batch directory shows up in the novel's directory. *)
Definition make_output_dir (st : State) : State :=
  let name := basename (output_file_path st) in
  match listing st with
  | Some entries =>
      if existsb (fun e => str_eqb (fst e) name) entries then st
      else set_listing st (Some (entries ++ [(name, true)]))
  | None => set_listing st (Some [(name, true)])
  end.

(** [os.path.isdir] of the batch directory: the entry of its name in the
    novel's directory is a directory. *)
Definition batch_dir_ready (st : State) : bool :=
  let name := basename (output_file_path st) in
  match listing st with
  | Some entries =>
      match find (fun e => str_eqb (fst e) name) entries with
      | Some (_, is_dir) => is_dir
      | None => false
      end
  | None => false
  end.

(** The book is written into the batch directory.  When a plain file has
    the name of the batch directory, [os.path.exists] keeps [os.makedirs]
    from running, the writer cannot open a file under it, [write_epub]
    passes over the [IOError], and the call returns with no book written. *)
Definition create_epub (net : Web) (st : State)
  : outcome unit * State * Web :=
  match scrape_worker (batch_size cfg) net st with
  | (Returned _, st, net) =>
      let st := make_output_dir st in
      let final_path :=
        path_join (output_file_path st)
          (novel_name cfg ++ " " ++ format_int (batch_size cfg) ++ ".epub") in
      if batch_dir_ready st
      then (Returned tt, add_epub_file st final_path (chapters st), net)
      else (Returned tt, st, net)
  | (Raised e, st, net) => (Raised e, st, net)
  | (Waiting, st, net) => (Waiting, st, net)
  end.
End Scraper.

(** ** A markup library for concrete runs

    An instance of [Libraries] to run the scraper on concrete pages.  It
    covers markup of ASCII characters in which every [<] opens a start tag
    or an end tag with a lower-case name, no void element ([br], [img],
    ...), no self-closing tag, no [pre] and no [textarea], attributes
    written the way [bs4] prints them, and text without [<], [>] and
    without [&] but in the reference [&nbsp;]; and the same markup with the
    no-break space in place of that reference.  On such markup the tree is
    the one [html.parser] hands to [bs4]: the reference is read as the
    no-break space, a text of ASCII white space only as one line feed or
    one blank, an end tag closes the open elements up to the nearest one of
    its name and is dropped when none is open, and what is still open at
    the end is closed there.  Printing puts the same tags back and the
    no-break space as it is; NFKC leaves ASCII alone and turns the no-break
    space into a blank. *)
Module Markup.

Local Set Warnings "-register-all".

Inductive node :=
| Text (s : str)
| Tag (name attrs : str) (children : list node).

Inductive token :=
| TText (s : str)
| TOpen (name attrs : str)
| TClose (name : str).

Fixpoint break_at_space (s : str) : str * str :=
  match s with
  | [] => ([], [])
  | c :: s' =>
      if is_space c then ([], s)
      else let (n, a) := break_at_space s' in (c :: n, a)
  end.

Definition tag_token (inside : str) : token :=
  match inside with
  | c :: name => if ascii_eqb c "/"%char then TClose name
                 else let (n, a) := break_at_space inside in TOpen n a
  | [] => TOpen [] []
  end.

Definition NBSP : ascii := ascii_of_nat 160.

(** The reference [&nbsp;] read as the character it stands for. *)
Fixpoint unescape (skip : nat) (s : str) : str :=
  match s with
  | [] => []
  | c :: s' =>
      match skip with
      | S k => unescape k s'
      | O => if starts_with "&nbsp;" s then NBSP :: unescape 5 s'
             else c :: unescape O s'
      end
  end.

(** [ASCII_SPACES] of [bs4]: blank, line feed, tab, form feed, carriage
    return. *)
Definition is_ascii_space (c : ascii) : bool :=
  let n := nat_of_ascii c in
  ((n =? 32) || (n =? 10) || (n =? 9) || (n =? 12) || (n =? 13))%nat.

(** A string of ASCII white space only is kept as one line feed, when it
    has one, or as one blank. *)
Definition collapse (s : str) : str :=
  if forallb is_ascii_space s
  then (if existsb (ascii_eqb LF) s then [LF] else [" "%char])
  else s.

Definition text_token (acc : str) : list token :=
  match acc with
  | [] => []
  | _ :: _ => [TText (collapse (unescape O (rev acc)))]
  end.

(** [acc] holds, reversed, the characters read since the last token. *)
Fixpoint tokens (in_tag : bool) (acc : str) (s : str) : list token :=
  match s with
  | [] => if in_tag then [TText ("<" ++ rev acc)] else text_token acc
  | c :: s' =>
      if in_tag then
        if ascii_eqb c ">"%char then tag_token (rev acc) :: tokens false [] s'
        else tokens true (c :: acc) s'
      else
        if ascii_eqb c "<"%char then text_token acc ++ tokens true [] s'
        else tokens false (c :: acc) s'
  end.

(** An open element: its name, its attributes and, last first, the
    children it has so far. *)
Definition frame := (str * str * list node)%type.

Definition close_into (top below : frame) : frame :=
  let '(n, a, k) := top in
  let '(m, b, k') := below in
  (m, b, Tag n a (rev k) :: k').

Fixpoint is_open (name : str) (top : frame) (below : list frame) : bool :=
  match below with
  | [] => false
  | f :: rest => str_eqb (fst (fst top)) name || is_open name f rest
  end.

Fixpoint pop_to (name : str) (top : frame) (below : list frame)
  : frame * list frame :=
  match below with
  | [] => (top, [])
  | f :: rest =>
      if str_eqb (fst (fst top)) name then (close_into top f, rest)
      else pop_to name (close_into top f) rest
  end.

Fixpoint close_all (top : frame) (below : list frame) : list node :=
  match below with
  | [] => rev (snd top)
  | f :: rest => close_all (close_into top f) rest
  end.

Fixpoint build (ts : list token) (top : frame) (below : list frame)
  : list node :=
  match ts with
  | [] => close_all top below
  | TText s :: ts' =>
      let '(n, a, k) := top in build ts' (n, a, Text s :: k) below
  | TOpen n a :: ts' => build ts' (n, a, []) (top :: below)
  | TClose n :: ts' =>
      if is_open n top below
      then let (t, b) := pop_to n top below in build ts' t b
      else build ts' top below
  end.

Definition parse (data : str) : list node :=
  build (tokens false [] data) (list_ascii_of_string "[document]", [], []) [].

Definition is_tag (name : str) (n : node) : bool :=
  match n with
  | Text _ => false
  | Tag m _ _ => str_eqb m name
  end.

(** An element is known by its path: the position of each ancestor among
    its siblings, then its own. *)
Definition path := list nat.

Fixpoint below_node (name : str) (n : node) : list path :=
  match n with
  | Text _ => []
  | Tag _ _ kids =>
      (fix go (i : nat) (l : list node) : list path :=
         match l with
         | [] => []
         | k :: l' =>
             (if is_tag name k then [[i]] else [])
             ++ map (cons i) (below_node name k) ++ go (S i) l'
         end) O kids
  end.

Definition descendants (doc : list node) (name : str) : list path :=
  below_node name (Tag (list_ascii_of_string "[document]") [] doc).

Fixpoint remove_nth (i : nat) (l : list node) : list node :=
  match l, i with
  | [], _ => []
  | _ :: l', O => l'
  | k :: l', S j => k :: remove_nth j l'
  end.

Fixpoint at_nth (i : nat) (f : node -> node) (l : list node) : list node :=
  match l, i with
  | [], _ => []
  | k :: l', O => f k :: l'
  | k :: l', S j => k :: at_nth j f l'
  end.

Fixpoint remove_at (p : path) (doc : list node) : list node :=
  match p with
  | [] => doc
  | [i] => remove_nth i doc
  | i :: p' =>
      at_nth i
        (fun k => match k with
                  | Text s => Text s
                  | Tag n a kids => Tag n a (remove_at p' kids)
                  end) doc
  end.

Fixpoint print_node (n : node) : str :=
  match n with
  | Text s => s
  | Tag name attrs kids =>
      "<" ++ name ++ attrs ++ ">"
      ++ flat_map print_node kids ++ "</" ++ name ++ ">"
  end.

#[global] Instance ascii_tags : Libraries := {
  normalize_NFKC :=
    map (fun c => if ascii_eqb c NBSP then " "%char else c);
  soup := list node;
  html_parser := parse;
  element := path;
  find_all := descendants;
  extract := fun doc p => remove_at p doc;
  decode := flat_map print_node
}.

End Markup.

Definition no_line_break (v : str) : Prop :=
  forall c, In c v -> c <> LF /\ c <> CR.

(** The file ends where a line ends: it is empty or its last character is a
    line feed.  [write_to_file] leaves every file it writes that way. *)
Definition newline_terminated (stored : str) : Prop :=
  stored = [] \/ exists s0, stored = s0 ++ [LF].

(** Text of one line: nothing to strip at either end, no line break inside. *)
Definition single_line (v : str) : Prop := strip v = v /\ no_line_break v.

(** The stored text of the frontier file, empty when there is no file. *)
Definition stored_text (st : State) : str :=
  match links_txt st with
  | Some stored => stored
  | None => []
  end.

(** ** Sample data *)

(** A fresh object in an empty novel directory, no frontier file yet. *)
Definition fresh : State :=
  {| output_file_path := "epub/My_Novel"; epub_items := []; chapters := [];
     links_txt := None; listing := Some []; stdin := []; log := [];
     epub_files := []; escalations := [] |}.

Definition sample_cfg (retries size : Z) (url : option str) : Config :=
  {| novel_name := "My Novel"; button_tag := "next_chap";
     domain_name := "https://example.com"; text_tag := "chr-c";
     max_retries := retries; initial_url := url; batch_size := size |}.

(** ** Vocabulary of the retry properties *)

(** The answers of the oracle that are pages, for requests of [url]: the
    attempts that got through to the server. *)
Fixpoint pages_received (net : Web) (url : str) : nat :=
  match net with
  | [] => O
  | get :: net' =>
      match get url with
      | ConnectionError => pages_received net' url
      | Got _ => S (pages_received net' url)
      end
  end.

(** No answer for [url] has the content block: each is a transport failure
    or a page without it (whose next button, when there is one, has its
    [href]). *)
Definition never_content (net : Web) (url : str) : Prop :=
  forall get, In get net ->
    get url = ConnectionError
    \/ exists page, get url = Got page
                    /\ relevant_html_part page = None
                    /\ next_button page <> Some None.

(** The retry counter at each of [f] attempts in a row, from [r] on. *)
Fixpoint counters (r : Z) (f : nat) : list Z :=
  match f with
  | O => []
  | S f' => r :: counters (r + 1) f'
  end.

Definition multiple_of (R k : Z) : bool := (k mod R =? 0)%Z.

(** A page without the content block and without a next button, and a web
    that answers the same whatever is asked. *)
Definition empty_page : Page :=
  {| next_button := None; relevant_html_part := None |}.

Definition always (r : Response) : str -> Response := fun _ => r.

(** A server page as the scraper sees it: the cleaned-up view of its content
    block, when it has one, and the [href] of its next button, when it has
    one. *)
Definition page_with (body next : option str) : Page :=
  {| next_button := option_map Some next; relevant_html_part := body |}.

Definition ch1 : str := "https://example.com/ch/1".
Definition ch2 : str := "https://example.com/ch/2".

Definition some_text : str := "<div><p>Once upon a time.</p><p>Next chapter</p></div>".

(** What stays on disk: the frontier file, the novel's directory, the
    packaged books, and with them the path the batch is written to. *)
Definition same_disk (st st' : State) : Prop :=
  links_txt st' = links_txt st
  /\ listing st' = listing st
  /\ epub_files st' = epub_files st
  /\ output_file_path st' = output_file_path st.

(** The text has nothing left for the two removal passes: no line with the
    watermark, in whatever case, and none of the excluded strings. *)
Definition no_forbidden_pattern (y : str) : Prop :=
  (forall line, In line (split_lines y) ->
     contains (lower (list_ascii_of_string "libread.com")) (lower line) = false)
  /\ (forall e, In e exclusions -> contains e y = false).

Definition bare_text : str := "<div>Once upon a time.<p>Next chapter</p></div>".

(** * More of the class *)

(** ** Prompts *)

Section IntInput.
(** [int(s)] on what the operator typed, [None] for [ValueError]. *)
Variable py_int : str -> option Z.

(** The operator is asked until a line reads as an integer. *)
Fixpoint get_int_input (typed : list str) : outcome Z * list str :=
  match typed with
  | [] => (Raised EOFError, [])
  | line :: rest =>
      match py_int line with
      | Some n => (Returned n, rest)
      | None => get_int_input rest
      end
  end.
End IntInput.

(** An answer [get_choice] takes: c, y or n in either case. *)
Definition valid_choice (a : str) : Prop :=
  lower a = list_ascii_of_string "c"
  \/ lower a = list_ascii_of_string "y"
  \/ lower a = list_ascii_of_string "n".

(** ** Vocabulary of the batch properties *)

(** The filter of [remove_pattern]: the line does not have the pattern. *)
Definition keeps (match_string line : str) : bool :=
  negb (contains (lower match_string) (lower line)).

(** The titles of [n] chapters in a row, from index [i] on. *)
Definition consecutive_titles (i : Z) (n : nat) : list str :=
  map (fun k => list_ascii_of_string "Chapter " ++ format_int (i + Z.of_nat k))
    (seq 0 n).

(** Every answer of the list is a transport failure for [url]. *)
Definition all_lost (fails : Web) (url : str) : Prop :=
  Forall (fun get => get url = ConnectionError) fails.


(** [int] on the lines of the examples: a run of digits reads as its number,
    and the examples type nothing else that [int] accepts. *)
Definition int_of_plain_digits (line : str) : option Z :=
  match line with
  | [] => None
  | _ :: _ => if forallb is_digit line then Some (int_of_digits line) else None
  end.

(** ** Vocabulary of the frontier properties *)

(** The text of a file whose lines are the given URLs. *)
Definition lines_text (urls : list str) : str :=
  List.concat (map (fun v => v ++ [LF]) urls).

(** A URL joins the list unless it is the last one already. *)
Definition push_url (urls : list str) (v : str) : list str :=
  match rev urls with
  | last_url :: _ => if str_eqb last_url v then urls else urls ++ [v]
  | [] => [v]
  end.

(** [write_to_file] called with each URL in turn. *)
Definition appends (st : State) (urls : list str) : State :=
  fold_left (fun s v => write_to_file s (Some v)) urls st.

(** A text with a character reference and no paragraph. *)
Definition nbsp_text : str := "<div>Once&nbsp;upon a time.</div>".

(** ** Vocabulary of the report *)

(** What the novel's directory holds under a name: nothing ([None]), a
    plain file ([Some false]) or a directory ([Some true]). *)
Definition listed_as (st : State) (name : str) : option bool :=
  match listing st with
  | Some entries =>
      option_map snd (find (fun e => str_eqb (fst e) name) entries)
  | None => None
  end.

(** A text with blanks around its only paragraph. *)
Definition spaced_text : str := "<div> <p>Once upon a time.</p> </div>".
(** * Properties *)

(** ** Strings *)

Lemma ascii_eqb_eq (a b : ascii) : ascii_eqb a b = true <-> a = b.
Proof. apply Ascii.eqb_eq. Qed.

Lemma ascii_eqb_refl (a : ascii) : ascii_eqb a a = true.
Proof. apply Ascii.eqb_refl. Qed.

Lemma ascii_eqb_neq (a b : ascii) : ascii_eqb a b = false <-> a <> b.
Proof. apply Ascii.eqb_neq. Qed.

Lemma str_eqb_eq (s t : str) : str_eqb s t = true <-> s = t.
Proof.
  revert t; induction s as [|a s IH]; intros [|b t]; simpl;
    try (split; [discriminate | discriminate]); try tauto.
  rewrite andb_true_iff, ascii_eqb_eq, IH.
  split; [intros [-> ->]; reflexivity | intros E; inversion E; auto].
Qed.

Lemma str_eqb_refl (s : str) : str_eqb s s = true.
Proof. apply str_eqb_eq; reflexivity. Qed.

Lemma str_eqb_neq (s t : str) : str_eqb s t = false <-> s <> t.
Proof.
  destruct (str_eqb s t) eqn:E.
  - apply str_eqb_eq in E. split; [discriminate | congruence].
  - split; [intros _ Heq; apply str_eqb_eq in Heq; congruence | reflexivity].
Qed.

Lemma starts_with_spec (p s : str) :
  starts_with p s = true <-> exists b, s = p ++ b.
Proof.
  revert s; induction p as [|a p IH]; intros s; simpl.
  - split; [intros _; exists s; reflexivity | reflexivity].
  - destruct s as [|c s].
    + split; [discriminate | intros [b Hb]; discriminate].
    + rewrite andb_true_iff, ascii_eqb_eq, IH. split.
      * intros [-> [b ->]]. exists b; reflexivity.
      * intros [b Hb]. inversion Hb; subst. split; [reflexivity | exists b; reflexivity].
Qed.

(** [contains] is the substring test. *)
Lemma contains_spec (p s : str) :
  contains p s = true <-> exists a b, s = a ++ p ++ b.
Proof.
  induction s as [|c s IH].
  - simpl. rewrite orb_false_r, starts_with_spec. split.
    + intros [b Hb]. exists [], b. exact Hb.
    + intros [a [b Hab]]. destruct a; [exists b; exact Hab | discriminate].
  - cbn [contains]. rewrite orb_true_iff, starts_with_spec, IH. split.
    + intros [[b Hb] | [a [b Hab]]].
      * exists [], b. exact Hb.
      * exists (c :: a), b. simpl. rewrite Hab. reflexivity.
    + intros [a [b Hab]]. destruct a as [|c' a].
      * left. exists b. exact Hab.
      * right. inversion Hab; subst. exists a, b. reflexivity.
Qed.

Lemma drop_while_app_keep (p : ascii -> bool) (s t : str) (c : ascii) :
  drop_while p s = c :: t -> forall u, drop_while p (s ++ u) = c :: t ++ u.
Proof.
  induction s as [|a s IH]; simpl; [discriminate|].
  destruct (p a); intros H u.
  - apply IH; exact H.
  - inversion H; subst. reflexivity.
Qed.

Lemma drop_while_length (p : ascii -> bool) (s : str) :
  (List.length (drop_while p s) <= List.length s)%nat.
Proof.
  induction s as [|a s IH]; simpl; [lia|].
  destruct (p a); simpl; lia.
Qed.

Lemma drop_while_fix (p : ascii -> bool) (s : str) :
  List.length (drop_while p s) = List.length s -> drop_while p s = s.
Proof.
  destruct s as [|a s]; simpl; [reflexivity|].
  destruct (p a); [|reflexivity].
  pose proof (drop_while_length p s). lia.
Qed.

(** A string that [strip] leaves alone is left alone by both of its halves. *)
Lemma strip_fix (v : str) : strip v = v -> lstrip v = v /\ rstrip v = v.
Proof.
  unfold strip, rstrip, lstrip. intros H.
  assert (Hl : List.length (drop_while is_space v) = List.length v).
  { apply (f_equal (@List.length ascii)) in H.
    rewrite length_rev in H.
    pose proof (drop_while_length is_space (rev (drop_while is_space v))) as H1.
    rewrite length_rev in H1.
    pose proof (drop_while_length is_space v). lia. }
  apply drop_while_fix in Hl. rewrite Hl in H. split; assumption.
Qed.

Lemma is_space_LF : is_space LF = true.
Proof. reflexivity. Qed.

(** Stripping takes the line terminator off a line that is otherwise
    stripped already. *)
Lemma strip_line (v : str) : strip v = v -> strip (v ++ [LF]) = v.
Proof.
  intros H. destruct (strip_fix v H) as [Hl Hr].
  unfold strip, lstrip, rstrip in *.
  destruct v as [|c v]; [reflexivity|].
  assert (E : drop_while is_space ((c :: v) ++ [LF]) = (c :: v) ++ [LF]).
  { exact (drop_while_app_keep is_space (c :: v) v c Hl [LF]). }
  rewrite E, rev_app_distr.
  change (rev [LF] ++ rev (c :: v)) with (LF :: rev (c :: v)).
  change (drop_while is_space (LF :: rev (c :: v)))
    with (if is_space LF then drop_while is_space (rev (c :: v))
          else LF :: rev (c :: v)).
  rewrite is_space_LF. exact Hr.
Qed.

(** ** Reading lines *)

Lemma universal_newlines_plain (v : str) :
  (forall c, In c v -> c <> CR) -> universal_newlines v = v.
Proof.
  induction v as [|c v IH]; intros H; [reflexivity|].
  cbn [universal_newlines].
  destruct (ascii_eqb c CR) eqn:E.
  - apply ascii_eqb_eq in E. destruct (H c (or_introl eq_refl)); exact E.
  - rewrite IH; [reflexivity|]. intros d Hd. apply H. right; exact Hd.
Qed.

Lemma universal_newlines_after_LF (s t : str) :
  universal_newlines (s ++ LF :: t)
  = universal_newlines (s ++ [LF]) ++ universal_newlines t.
Proof.
  induction s as [|c s IH].
  - reflexivity.
  - cbn [app universal_newlines].
    destruct (ascii_eqb c CR).
    + destruct s as [|d s].
      * cbn [app]. rewrite ascii_eqb_refl. exact IH.
      * cbn [app] in *. destruct (ascii_eqb d LF).
        -- exact IH.
        -- rewrite IH. reflexivity.
    + rewrite IH. reflexivity.
Qed.

Lemma universal_newlines_ends_LF (s : str) :
  exists x, universal_newlines (s ++ [LF]) = x ++ [LF].
Proof.
  induction s as [|c s [x IH]].
  - exists []. reflexivity.
  - cbn [app universal_newlines].
    destruct (ascii_eqb c CR).
    + destruct s as [|d s].
      * cbn [app]. rewrite ascii_eqb_refl. exists []. reflexivity.
      * cbn [app] in *. destruct (ascii_eqb d LF).
        -- exists x. exact IH.
        -- exists (LF :: x). rewrite IH. reflexivity.
    + exists (c :: x). rewrite IH. reflexivity.
Qed.

Lemma keepends_nonempty (c : ascii) (s : str) : keepends (c :: s) <> [].
Proof.
  cbn [keepends]. destruct (ascii_eqb c LF); [discriminate|].
  destruct (keepends s); discriminate.
Qed.

Lemma keepends_after_LF (x y : str) :
  keepends (x ++ LF :: y) = keepends (x ++ [LF]) ++ keepends y.
Proof.
  induction x as [|c x IH].
  - reflexivity.
  - cbn [app keepends]. destruct (ascii_eqb c LF).
    + rewrite IH. reflexivity.
    + rewrite IH. destruct (keepends (x ++ [LF])) eqn:E.
      * exfalso. destruct x; cbn [app] in E; exact (keepends_nonempty _ _ E).
      * reflexivity.
Qed.

Lemma keepends_one_line (v : str) :
  no_line_break v -> keepends (v ++ [LF]) = [v ++ [LF]].
Proof.
  induction v as [|c v IH]; intros H; [reflexivity|].
  cbn [app keepends].
  destruct (ascii_eqb c LF) eqn:E.
  - apply ascii_eqb_eq in E. destruct (H c (or_introl eq_refl)); contradiction.
  - rewrite IH; [reflexivity|]. intros d Hd. apply H. right; exact Hd.
Qed.

(** One more line written behind complete lines is one more line read. *)
Lemma readlines_append (stored v : str) :
  newline_terminated stored -> no_line_break v ->
  readlines (stored ++ v ++ [LF]) = readlines stored ++ [v ++ [LF]].
Proof.
  intros Ht Hv. unfold readlines.
  assert (Hline : keepends (universal_newlines (v ++ [LF])) = [v ++ [LF]]).
  { rewrite universal_newlines_plain.
    - apply keepends_one_line; exact Hv.
    - intros c Hc. apply in_app_or in Hc. destruct Hc as [Hc | [<- | []]].
      + apply Hv; exact Hc.
      + discriminate. }
  destruct Ht as [-> | [s0 ->]].
  - simpl app. exact Hline.
  - rewrite <- app_assoc. cbn [app].
    rewrite universal_newlines_after_LF.
    destruct (universal_newlines_ends_LF s0) as [x Hx]. rewrite Hx.
    rewrite <- app_assoc. cbn [app].
    rewrite keepends_after_LF. rewrite Hline. reflexivity.
Qed.

(** ** Frontier file *)

Lemma write_to_file_cases (st : State) (v : str) :
  write_to_file st (Some v) = st
  \/ write_to_file st (Some v)
     = set_links_txt st (Some (stored_text st ++ v ++ [LF])).
Proof.
  unfold write_to_file, stored_text.
  destruct (links_txt st) as [stored|]; [|right; reflexivity].
  destruct (rev (readlines stored)) as [|last_line before]; [right; reflexivity|].
  destruct (str_eqb (strip last_line) v); [left | right]; reflexivity.
Qed.

(** A file that ends where a line ends still does after an append. *)
Lemma write_to_file_newline_terminated (st : State) (value : option str) :
  newline_terminated (stored_text st) ->
  newline_terminated (stored_text (write_to_file st value)).
Proof.
  intros Ht. destruct value as [v|]; [|exact Ht].
  destruct (write_to_file_cases st v) as [-> | ->]; [exact Ht|].
  right. exists (stored_text st ++ v). unfold stored_text at 1.
  cbn [links_txt set_links_txt]. rewrite <- app_assoc. reflexivity.
Qed.

Lemma write_to_file_last_line (st : State) (stored v : str) :
  links_txt st = Some stored ->
  (exists before last_line,
      readlines stored = before ++ [last_line] /\ strip last_line = v) ->
  write_to_file st (Some v) = st.
Proof.
  intros Hf [before [last_line [Hl Hs]]].
  unfold write_to_file. rewrite Hf, Hl, rev_app_distr. cbn [rev app].
  rewrite Hs, str_eqb_refl. reflexivity.
Qed.

(** C5 (as amended): for a URL of one line (nothing to strip at its ends, no
    line break inside) and a frontier file that is absent, empty or ends
    with a line feed, appending the URL a second time changes nothing; the
    first append either changes nothing or puts exactly one line, the URL,
    behind the stored text, which stays as it was; either way the last
    stored line is then the URL. *)
Theorem write_to_file_idempotent (st : State) (v : str) :
  newline_terminated (stored_text st) -> single_line v ->
  let st1 := write_to_file st (Some v) in
  write_to_file st1 (Some v) = st1
  /\ (st1 = st
      \/ links_txt st1 = Some (stored_text st ++ v ++ [LF])
         /\ readlines (stored_text st1) = readlines (stored_text st) ++ [v ++ [LF]])
  /\ (exists before last_line,
        readlines (stored_text st1) = before ++ [last_line]
        /\ strip last_line = v).
Proof.
  intros Ht [Hs Hv] st1.
  assert (Hnew : forall st2, links_txt st2 = Some (stored_text st ++ v ++ [LF]) ->
            readlines (stored_text st2) = readlines (stored_text st) ++ [v ++ [LF]]).
  { intros st2 H2. unfold stored_text at 1. rewrite H2.
    apply readlines_append; assumption. }
  assert (Hlast : exists before last_line,
            readlines (stored_text st1) = before ++ [last_line]
            /\ strip last_line = v).
  { subst st1. unfold write_to_file.
    destruct (links_txt st) as [stored|] eqn:Hf.
    - destruct (rev (readlines stored)) as [|last_line before] eqn:Hr.
      + exists (readlines (stored_text st)), (v ++ [LF]). split.
        * apply Hnew. unfold stored_text. rewrite Hf. reflexivity.
        * apply strip_line; exact Hs.
      + destruct (str_eqb (strip last_line) v) eqn:E.
        * exists (rev before), last_line. split.
          -- unfold stored_text. rewrite Hf.
             rewrite <- (rev_involutive (readlines stored)), Hr. reflexivity.
          -- apply str_eqb_eq; exact E.
        * exists (readlines (stored_text st)), (v ++ [LF]). split.
          -- apply Hnew. unfold stored_text. rewrite Hf. reflexivity.
          -- apply strip_line; exact Hs.
    - exists (readlines (stored_text st)), (v ++ [LF]). split.
      + apply Hnew. unfold stored_text. rewrite Hf. reflexivity.
      + apply strip_line; exact Hs. }
  split; [|split].
  - destruct (links_txt st1) as [stored1|] eqn:H1.
    + apply write_to_file_last_line with (stored := stored1); [exact H1|].
      unfold stored_text in Hlast. rewrite H1 in Hlast. exact Hlast.
    + exfalso. subst st1.
      destruct (write_to_file_cases st v) as [E | E]; rewrite E in H1.
      * destruct Hlast as [before [last_line [Hl _]]].
        rewrite E in Hl. unfold stored_text in Hl. rewrite H1 in Hl.
        destruct before; discriminate.
      * discriminate.
  - subst st1. destruct (write_to_file_cases st v) as [E | E].
    + left; exact E.
    + right. split.
      * rewrite E. reflexivity.
      * apply Hnew. rewrite E. reflexivity.
  - exact Hlast.
Qed.

Lemma write_to_file_idempotent_witness :
  let st := set_links_txt fresh (Some (list_ascii_of_string "https://example.com/ch/1" ++ [LF])) in
  let v : str := "https://example.com/ch/2" in
  let st1 := write_to_file st (Some v) in
  write_to_file st1 (Some v) = st1
  /\ links_txt st1
     = Some (list_ascii_of_string "https://example.com/ch/1" ++ [LF]
             ++ list_ascii_of_string "https://example.com/ch/2" ++ [LF]).
Proof.
  intros st v st1. split.
  - apply (write_to_file_idempotent st v).
    + right. exists (list_ascii_of_string "https://example.com/ch/1"). reflexivity.
    + split; [reflexivity|].
      intros c Hc. split; intros ->; vm_compute in Hc; intuition discriminate.
  - reflexivity.
Defined.

(** C5 (as stated) fails for a URL with a blank at its end, such as the
    operator may type at the seed prompt: the stored line is stripped before
    the comparison, the URL is not, so the second append stores the URL a
    second time.  It fails as well for a file whose last line has no line
    feed: the first append runs into that line, the second adds a line. *)
Lemma write_to_file_not_idempotent :
  let v : str := "https://example.com/ch/1 " in
  let once := write_to_file fresh (Some v) in
  let twice := write_to_file once (Some v) in
  twice <> once
  /\ readlines (stored_text once) = [v ++ [LF]]
  /\ readlines (stored_text twice) = [v ++ [LF]; v ++ [LF]]
  /\ let u : str := "u2" in
     let hand_made := set_links_txt fresh (Some (list_ascii_of_string "u1")) in
     stored_text (write_to_file hand_made (Some u))
       = list_ascii_of_string "u1u2" ++ [LF]
     /\ stored_text (write_to_file (write_to_file hand_made (Some u)) (Some u))
       = list_ascii_of_string "u1u2" ++ [LF] ++ list_ascii_of_string "u2" ++ [LF].
Proof.
  cbv zeta. split; [|split; [|split; [|split]]]; try reflexivity.
  intros H. apply (f_equal stored_text) in H. vm_compute in H. discriminate.
Qed.

Lemma filter_none (A : Type) (f : A -> bool) (l : list A) :
  Forall (fun x => f x = false) l -> filter f l = [].
Proof.
  induction 1 as [|x l Hx _ IH]; simpl; [reflexivity|].
  rewrite Hx. exact IH.
Qed.

(** C10: when the frontier file exists and every line of it is blank,
    [get_url] returns [None], asks the operator nothing and writes nothing;
    no existing file, whatever it holds, leads to the prompt or to a write;
    with no file at all the operator is asked and the answer is stored. *)
Theorem get_url_blank_file (st : State) :
  (forall stored,
      links_txt st = Some stored ->
      Forall (fun line => strip line = []) (readlines stored) ->
      get_url st = (Returned None, st))
  /\ (forall stored, links_txt st = Some stored -> snd (get_url st) = st)
  /\ (links_txt st = None ->
      forall line rest, stdin st = line :: rest ->
      get_url st
      = (Returned (Some line),
         set_links_txt (set_stdin st rest) (Some (line ++ [LF])))).
Proof.
  split; [|split].
  - intros stored Hf Hblank. unfold get_url. rewrite Hf.
    rewrite filter_none; [reflexivity|].
    eapply Forall_impl; [|exact Hblank].
    intros line Hl. unfold nonblank. cbv beta in Hl. rewrite Hl. reflexivity.
  - intros stored Hf. unfold get_url. rewrite Hf.
    destruct (rev (map strip (filter nonblank (readlines stored)))); reflexivity.
  - intros Hf line rest Hin. unfold get_url, input. rewrite Hf, Hin.
    unfold write_to_file. cbn. rewrite Hf. reflexivity.
Qed.

Lemma get_url_blank_file_witness :
  let st := set_links_txt (set_stdin fresh [list_ascii_of_string "https://example.com/ch/1"])
              (Some (list_ascii_of_string "  " ++ [LF; CR; LF] ++ list_ascii_of_string " ")) in
  get_url st = (Returned None, st)
  /\ get_url (set_stdin fresh [list_ascii_of_string "u"])
     = (Returned (Some (list_ascii_of_string "u")),
        set_links_txt fresh (Some (list_ascii_of_string "u" ++ [LF]))).
Proof.
  intros st. split.
  - apply (proj1 (get_url_blank_file st)) with (stored := list_ascii_of_string "  " ++ [LF; CR; LF] ++ list_ascii_of_string " ").
    + reflexivity.
    + vm_compute. repeat constructor.
  - apply (proj2 (proj2 (get_url_blank_file (set_stdin fresh [list_ascii_of_string "u"])))).
    + reflexivity.
    + reflexivity.
Defined.

(** ** Fetching one page *)

(** C9: called without a URL, [scrape_one_webpage] returns [(False, None)]
    at once, for every index and retry count: the web oracle comes back
    whole (no request was made), and chapters, book items, frontier file,
    terminal input and all the rest but the log are as before; the log has
    one more entry, naming the index. *)
Theorem scrape_one_webpage_no_url `{L : Libraries} (cfg : Config) (net : Web)
    (st : State) (webpage_no retry_no : Z) :
  exists st',
    scrape_one_webpage cfg net st None webpage_no retry_no
    = (Returned (false, None), st', net)
    /\ chapters st' = chapters st
    /\ epub_items st' = epub_items st
    /\ links_txt st' = links_txt st
    /\ listing st' = listing st
    /\ stdin st' = stdin st
    /\ output_file_path st' = output_file_path st
    /\ epub_files st' = epub_files st
    /\ escalations st' = escalations st
    /\ log st' = log st ++ [LogNoMoreChapters webpage_no].
Proof.
  eexists. split; [reflexivity|]. repeat split.
Qed.

(** C7: a next link that has the configured domain somewhere inside is
    returned as it is; any other link is returned with the domain put in
    front; a page without the next button gives [None]. *)
Theorem find_next_chapter_link_spec (cfg : Config) (page : Page) :
  (forall link,
      next_button page = Some (Some link) ->
      (exists a b, link = a ++ domain_name cfg ++ b) ->
      find_next_chapter_link cfg page = Returned (Some link))
  /\ (forall link,
      next_button page = Some (Some link) ->
      ~ (exists a b, link = a ++ domain_name cfg ++ b) ->
      find_next_chapter_link cfg page = Returned (Some (domain_name cfg ++ link)))
  /\ (next_button page = None ->
      find_next_chapter_link cfg page = Returned None).
Proof.
  unfold find_next_chapter_link. split; [|split].
  - intros link -> Hin. apply contains_spec in Hin. rewrite Hin. reflexivity.
  - intros link -> Hout.
    destruct (contains (domain_name cfg) link) eqn:E; [|reflexivity].
    apply contains_spec in E. contradiction.
  - intros ->. reflexivity.
Qed.

Lemma find_next_chapter_link_spec_witness :
  let cfg := sample_cfg 3 5 None in
  find_next_chapter_link cfg
    {| next_button := Some (Some (list_ascii_of_string "/ch/5"));
       relevant_html_part := None |}
  = Returned (Some (list_ascii_of_string "https://example.com/ch/5"))
  /\ find_next_chapter_link cfg
    {| next_button := Some (Some (list_ascii_of_string "https://example.com/ch/5"));
       relevant_html_part := None |}
  = Returned (Some (list_ascii_of_string "https://example.com/ch/5"))
  /\ find_next_chapter_link cfg
    {| next_button := None; relevant_html_part := None |}
  = Returned None.
Proof.
  intros cfg. split; [|split].
  - apply (proj1 (proj2 (find_next_chapter_link_spec cfg _))).
    + reflexivity.
    + intros Hin. apply contains_spec in Hin. vm_compute in Hin. discriminate.
  - apply (proj1 (find_next_chapter_link_spec cfg _)).
    + reflexivity.
    + exists [], (list_ascii_of_string "/ch/5"). reflexivity.
  - apply (proj2 (proj2 (find_next_chapter_link_spec cfg _))). reflexivity.
Defined.

(** ** Finished batches *)

Lemma digits_of_uint (d : Decimal.uint) :
  Forall (fun c => is_digit c = true)
    (list_ascii_of_string (NilEmpty.string_of_uint d))
  /\ uint_of_digits (list_ascii_of_string (NilEmpty.string_of_uint d)) = d.
Proof.
  induction d as [|d [IH1 IH2]|d [IH1 IH2]|d [IH1 IH2]|d [IH1 IH2]|d [IH1 IH2]
                  |d [IH1 IH2]|d [IH1 IH2]|d [IH1 IH2]|d [IH1 IH2]|d [IH1 IH2]];
    cbn [NilEmpty.string_of_uint list_ascii_of_string uint_of_digits].
  1: split; [constructor | reflexivity].
  all: split; [constructor; [reflexivity | exact IH1] | rewrite IH2; reflexivity].
Qed.

Lemma span_digits_app (ds rest : str) :
  Forall (fun c => is_digit c = true) ds ->
  match rest with [] => True | c :: _ => is_digit c = false end ->
  span_digits (ds ++ rest) = (ds, rest).
Proof.
  intros Hds Hrest. induction Hds as [|c ds Hc _ IH].
  - destruct rest as [|c rest]; [reflexivity|].
    cbn [app span_digits]. rewrite Hrest. reflexivity.
  - cbn [app span_digits]. rewrite Hc, IH. reflexivity.
Qed.

(** Two runs of digits with a hyphen between them match the pattern. *)
Lemma match_range_digits (ds1 ds2 : str) :
  ds1 <> [] -> ds2 <> [] ->
  Forall (fun c => is_digit c = true) ds1 ->
  Forall (fun c => is_digit c = true) ds2 ->
  match_range (ds1 ++ "-" ++ ds2) = Some (int_of_digits ds1, int_of_digits ds2).
Proof.
  intros N1 N2 D1 D2. unfold match_range.
  rewrite span_digits_app; [|exact D1|reflexivity].
  destruct ds1 as [|c1 t1]; [congruence|].
  cbn [list_ascii_of_string app].
  change (ascii_eqb "-"%char "-"%char) with true. cbv iota.
  rewrite <- (app_nil_r ds2) at 1.
  rewrite span_digits_app; [|exact D2|exact I].
  destruct ds2 as [|c2 t2]; [congruence|]. reflexivity.
Qed.

(** A number that is not negative prints as its digits, at least one. *)
Lemma format_int_nonneg (z : Z) :
  (0 <= z)%Z ->
  exists ds, format_int z = ds /\ ds <> []
             /\ Forall (fun c => is_digit c = true) ds
             /\ int_of_digits ds = z.
Proof.
  intros Hz. unfold format_int, int_of_digits.
  assert (H : exists d, Z.to_int z = Decimal.Pos d /\ d <> Decimal.Nil
                        /\ Z.of_N (N.of_uint d) = z).
  { destruct z as [|p|p]; [| |lia].
    - exists Decimal.zero. repeat split. discriminate.
    - exists (Pos.to_uint p). repeat split.
      + apply DecimalPos.Unsigned.to_uint_nonnil.
      + unfold N.of_uint. rewrite DecimalPos.Unsigned.of_to. reflexivity. }
  destruct H as [d [-> [Hn Hv]]]. cbn [NilEmpty.string_of_int].
  destruct (digits_of_uint d) as [Hd Hu].
  eexists. split; [reflexivity|]. split; [|split].
  - destruct d; try congruence;
      cbn [NilEmpty.string_of_uint list_ascii_of_string]; discriminate.
  - exact Hd.
  - rewrite Hu. exact Hv.
Qed.

(** The pattern reads a batch directory name back. *)
Lemma match_range_range_name (a b : Z) :
  (0 <= a)%Z -> (0 <= b)%Z -> match_range (range_name a b) = Some (a, b).
Proof.
  intros Ha Hb.
  destruct (format_int_nonneg a Ha) as [da [Ea [Na [Da Va]]]].
  destruct (format_int_nonneg b Hb) as [db [Eb [Nb [Db Vb]]]].
  unfold range_name. rewrite Ea, Eb.
  rewrite match_range_digits by assumption.
  rewrite Va, Vb. reflexivity.
Qed.

Lemma py_max_spec (a b : Z) : py_max a b = Z.max a b.
Proof. unfold py_max. destruct (Z.ltb_spec a b); lia. Qed.

(** What the scan of a listing comes to: nothing when it started from
    nothing and met no batch directory, else the largest number among the
    start value and the ends it met. *)
Lemma highest_end_spec (entries : list (str * bool)) (acc : option Z) :
  match highest_end entries acc with
  | None => acc = None /\ batch_ends entries = []
  | Some m =>
      (acc = Some m \/ In m (batch_ends entries))
      /\ (forall h, acc = Some h -> (h <= m)%Z)
      /\ (forall x, In x (batch_ends entries) -> (x <= m)%Z)
  end.
Proof.
  revert acc. induction entries as [|[name is_dir] entries IH]; intros acc.
  - cbn [highest_end batch_ends]. destruct acc as [h|].
    + split; [left; reflexivity | split].
      * intros h' E. inversion E. lia.
      * intros x [].
    + split; reflexivity.
  - cbn [highest_end batch_ends].
    destruct (match_range name) as [[a e]|]; [destruct is_dir|]; try apply IH.
    destruct acc as [h|].
    + rewrite py_max_spec. specialize (IH (Some (Z.max h e))).
      destruct (highest_end entries (Some (Z.max h e))) as [m|].
      * destruct IH as [Hin [Hacc Hall]].
        specialize (Hacc _ eq_refl). split; [|split].
        -- destruct Hin as [Hm | Hm].
           ++ inversion Hm. destruct (Z.max_spec h e) as [[_ ->] | [_ ->]].
              ** right; left; reflexivity.
              ** left; reflexivity.
           ++ right; right; exact Hm.
        -- intros h' E. inversion E. lia.
        -- intros x [<- | Hx]; [lia | apply Hall; exact Hx].
      * destruct IH as [IH _]. discriminate.
    + specialize (IH (Some e)).
      destruct (highest_end entries (Some e)) as [m|].
      * destruct IH as [Hin [Hacc Hall]].
        specialize (Hacc _ eq_refl). split; [|split].
        -- right. destruct Hin as [Hm | Hm].
           ++ inversion Hm. left; reflexivity.
           ++ right; exact Hm.
        -- discriminate.
        -- intros x [<- | Hx]; [lia | apply Hall; exact Hx].
      * destruct IH as [IH _]. discriminate.
Qed.

Lemma In_batch_ends (entries : list (str * bool)) (x : Z) :
  In x (batch_ends entries)
  <-> exists name a, In (name, true) entries /\ match_range name = Some (a, x).
Proof.
  induction entries as [|[name is_dir] entries IH]; cbn [batch_ends].
  - split; [intros [] | intros [? [? [[] _]]]].
  - destruct (match_range name) as [[a e]|] eqn:E; [destruct is_dir|].
    + cbn [In]. rewrite IH. split.
      * intros [<- | [n [a' [Hin Hm]]]].
        -- exists name, a. split; [left; reflexivity | exact E].
        -- exists n, a'. split; [right; exact Hin | exact Hm].
      * intros [n [a' [[Heq | Hin] Hm]]].
        -- inversion Heq; subst. rewrite E in Hm. inversion Hm. left; reflexivity.
        -- right. exists n, a'. split; assumption.
    + rewrite IH. split.
      * intros [n [a' [Hin Hm]]]. exists n, a'. split; [right; exact Hin | exact Hm].
      * intros [n [a' [[Heq | Hin] Hm]]]; [discriminate|].
        exists n, a'. split; assumption.
    + rewrite IH. split.
      * intros [n [a' [Hin Hm]]]. exists n, a'. split; [right; exact Hin | exact Hm].
      * intros [n [a' [[Heq | Hin] Hm]]].
        -- inversion Heq; subst. rewrite E in Hm. discriminate.
        -- exists n, a'. split; assumption.
Qed.

Lemma batch_ends_of_ranges (entries others : list (str * bool))
    (ranges : list (Z * Z)) :
  Permutation entries (map batch_dir ranges ++ others) ->
  (forall r, In r ranges -> (0 <= fst r)%Z /\ (0 <= snd r)%Z) ->
  (forall e, In e others -> snd e = false \/ match_range (fst e) = None) ->
  forall x, In x (batch_ends entries) <-> In x (map snd ranges).
Proof.
  intros Hperm Hpos Hothers x. rewrite In_batch_ends. split.
  - intros [name [a [Hin Hm]]].
    apply (Permutation_in _ Hperm) in Hin. apply in_app_or in Hin.
    destruct Hin as [Hin | Hin].
    + apply in_map_iff in Hin. destruct Hin as [[r1 r2] [Hr Hin]].
      unfold batch_dir in Hr. cbn [fst snd] in Hr. inversion Hr; subst name.
      destruct (Hpos _ Hin) as [H1 H2]. cbn [fst snd] in H1, H2.
      rewrite (match_range_range_name _ _ H1 H2) in Hm. inversion Hm; subst.
      apply in_map_iff. exists (a, x). split; [reflexivity | exact Hin].
    + destruct (Hothers _ Hin) as [H | H]; cbn [fst snd] in H; congruence.
  - intros Hin. apply in_map_iff in Hin. destruct Hin as [[r1 r2] [Hr Hin]].
    cbn [snd] in Hr. subst r2.
    destruct (Hpos _ Hin) as [H1 H2]. cbn [fst snd] in H1, H2.
    exists (range_name r1 x), r1. split.
    + apply (Permutation_in _ (Permutation_sym Hperm)). apply in_or_app. left.
      apply in_map_iff. exists (r1, x). split; [reflexivity | exact Hin].
    + apply match_range_range_name; assumption.
Qed.

(** C4: when the novel's directory holds, in any order, the directories of
    the finished batches, each named [{initial}-{end}], next to entries that
    are no directories or do not match the pattern (the frontier file, the
    log), the batch starts at the largest [end] plus one; with no batch
    directory, or no novel directory at all, it starts at 1. *)
Theorem initial_chapter_number_resume (st : State) :
  (listing st = None -> initial_chapter_number st = 1%Z)
  /\ (forall entries ranges others,
        listing st = Some entries ->
        Permutation entries (map batch_dir ranges ++ others) ->
        (forall r, In r ranges -> (0 <= fst r)%Z /\ (0 <= snd r)%Z) ->
        (forall e, In e others -> snd e = false \/ match_range (fst e) = None) ->
        (ranges = [] -> initial_chapter_number st = 1%Z)
        /\ (ranges <> [] ->
            exists m, In m (map snd ranges)
                      /\ (forall r, In r ranges -> (snd r <= m)%Z)
                      /\ initial_chapter_number st = (m + 1)%Z)).
Proof.
  unfold initial_chapter_number, get_last_chapter_scraped. split.
  - intros ->. reflexivity.
  - intros entries ranges others -> Hperm Hpos Hothers.
    pose proof (batch_ends_of_ranges entries others ranges Hperm Hpos Hothers) as Hends.
    pose proof (highest_end_spec entries None) as Hspec.
    destruct (highest_end entries None) as [m|]; split.
    + intros ->. destruct Hspec as [[H | H] _]; [discriminate|].
      apply Hends in H. destruct H.
    + intros _. destruct Hspec as [[H | H] [_ Hall]]; [discriminate|].
      exists m. split; [apply Hends; exact H | split; [|reflexivity]].
      intros r Hr. apply Hall, Hends, in_map. exact Hr.
    + reflexivity.
    + intros Hne. destruct Hspec as [_ Hnil].
      destruct ranges as [|r ranges]; [congruence|].
      assert (Hin : In (snd r) (batch_ends entries)).
      { apply Hends. left; reflexivity. }
      rewrite Hnil in Hin. destruct Hin.
Qed.

Lemma initial_chapter_number_resume_witness :
  let entries : list (str * bool) :=
    [ (list_ascii_of_string "11-20", true);
      (list_ascii_of_string "Links.txt", false);
      (list_ascii_of_string "1-10", true);
      (list_ascii_of_string "My Novel.log", false);
      (list_ascii_of_string "21-27", true) ] in
  initial_chapter_number (set_listing fresh (Some entries)) = 28%Z
  /\ initial_chapter_number fresh = 1%Z.
Proof.
  intros entries.
  pose (ranges := [(1, 10); (11, 20); (21, 27)]%Z).
  pose (others := [ (list_ascii_of_string "Links.txt", false);
                    (list_ascii_of_string "My Novel.log", false) ]).
  assert (Hperm : Permutation entries (map batch_dir ranges ++ others)).
  { apply (Permutation_cons_app [batch_dir (1, 10)%Z]
             [batch_dir (21, 27)%Z; (list_ascii_of_string "Links.txt", false);
              (list_ascii_of_string "My Novel.log", false)]).
    apply (Permutation_cons_app [batch_dir (1, 10)%Z; batch_dir (21, 27)%Z]
             [(list_ascii_of_string "My Novel.log", false)]).
    apply perm_skip. apply perm_swap. }
  assert (Hpos : forall r, In r ranges -> (0 <= fst r)%Z /\ (0 <= snd r)%Z).
  { intros r [<- | [<- | [<- | []]]]; cbn [fst snd]; lia. }
  assert (Hoth : forall e, In e others ->
                           snd e = false \/ match_range (fst e) = None).
  { intros e [<- | [<- | []]]; left; reflexivity. }
  split.
  - destruct (proj2 (initial_chapter_number_resume (set_listing fresh (Some entries)))
                entries ranges others eq_refl Hperm Hpos Hoth) as [_ H].
    destruct H as [m [Hin [Hall ->]]]; [discriminate|].
    assert (27 <= m)%Z
      by (apply (Hall (21, 27)%Z); right; right; left; reflexivity).
    destruct Hin as [<- | [<- | [<- | []]]]; cbn [snd] in *; lia.
  - apply (proj1 (proj2 (initial_chapter_number_resume fresh) [] [] [] eq_refl
                    (Permutation_refl _)
                    (fun r (H : In r []) => match H with end)
                    (fun e (H : In e []) => match H with end))).
    reflexivity.
Defined.

(** ** The retry loop *)

Lemma lower_yes (a : str) :
  lower a = list_ascii_of_string "y" ->
  is_choice (lower a) = true
  /\ str_eqb (lower (lower a)) "n" = false
  /\ str_eqb (lower (lower a)) "c" = false.
Proof. intros ->. repeat split. Qed.

Lemma counters_seq (r : Z) (f : nat) :
  counters r f = map (fun j => (r + Z.of_nat j)%Z) (seq 0 f).
Proof.
  revert r. induction f as [|f IH]; intros r; [reflexivity|].
  cbn [counters seq map]. rewrite IH, <- seq_shift, map_map.
  f_equal; [lia|]. apply map_ext. intros j. lia.
Qed.

(** Among the counters 1, ..., f there are f / R multiples of R. *)
Lemma multiples_up_to (R : Z) (f : nat) :
  (1 <= R)%Z ->
  Z.of_nat (List.length (filter (multiple_of R) (map Z.of_nat (seq 1 f))))
  = (Z.of_nat f / R)%Z.
Proof.
  intros HR. induction f as [|f IH].
  - change (0 = 0 / R)%Z. symmetry. apply Z.div_0_l. lia.
  - rewrite seq_S, map_app, filter_app, length_app, Nat2Z.inj_add, IH.
    cbn [map filter Nat.add]. unfold multiple_of.
    pose proof (Z.div_mod (Z.of_nat f) R ltac:(lia)) as Hf.
    pose proof (Z.mod_pos_bound (Z.of_nat f) R ltac:(lia)) as Hm.
    set (q := (Z.of_nat f / R)%Z) in *. set (m := (Z.of_nat f mod R)%Z) in *.
    assert (Hs : Z.of_nat (S f) = (R * q + (m + 1))%Z) by lia.
    destruct (Z.eq_dec (m + 1) R) as [Hfull | Hpart].
    + assert (E : (Z.of_nat (S f) mod R = 0)%Z).
      { symmetry. apply Z.mod_unique with (q := (q + 1)%Z); lia. }
      rewrite E. cbn [Z.eqb List.length].
      apply Z.div_unique with (r := 0%Z); lia.
    + assert (E : (Z.of_nat (S f) mod R = m + 1)%Z).
      { symmetry. apply Z.mod_unique with (q := q); lia. }
      rewrite E. destruct (Z.eqb_spec (m + 1) 0); [lia|]. cbn [List.length].
      apply Z.div_unique with (r := (m + 1)%Z); lia.
Qed.

Section RetryLoop.
Context {L : Libraries}.
Variable cfg : Config.
Hypothesis retries_positive : (1 <= max_retries cfg)%Z.

Let R := max_retries cfg.

Lemma find_next_chapter_link_returns (page : Page) :
  next_button page <> Some None ->
  exists next_url, find_next_chapter_link cfg page = Returned next_url.
Proof.
  unfold find_next_chapter_link. intros H.
  destruct (next_button page) as [[link|]|]; [|congruence|eauto].
  destruct (contains (domain_name cfg) link); eauto.
Qed.

(** Any run of the loop: each call of [get_choice] it adds happens with the
    retry counter at a multiple of [max_retries]. *)
Lemma scrape_loop_escalations (net : Web) :
  forall st url i r chapter res st' net',
    scrape_loop cfg net st url i r chapter = (res, st', net') ->
    exists new, escalations st' = escalations st ++ new
                /\ Forall (fun k => (k mod R = 0)%Z) new.
Proof.
  induction net as [|get net IH]; intros st url i r chapter res st' net' Hrun.
  - cbn in Hrun. inversion Hrun; subst. exists []. rewrite app_nil_r. auto.
  - cbn [scrape_loop] in Hrun.
    destruct (get url) as [|page].
    { apply IH in Hrun. exact Hrun. }
    destruct (find_next_chapter_link cfg page) as [next_url|e|];
      try (inversion Hrun; subst; exists []; rewrite app_nil_r; auto; fail).
    destruct (max_retries cfg =? 0)%Z;
      try (inversion Hrun; subst; exists []; rewrite app_nil_r; auto; fail).
    set (st1 := if (8 mod max_retries cfg <? r)%Z
                then logging st (LogRetrying url r) else st) in Hrun.
    assert (H1 : escalations st1 = escalations st)
      by (subst st1; destruct (8 mod max_retries cfg <? r)%Z; reflexivity).
    destruct (relevant_html_part page) as [prettified|].
    { inversion Hrun; subst. exists []. rewrite app_nil_r. cbn. auto. }
    destruct (Z.eqb_spec (r mod max_retries cfg) 0) as [Hmult | _].
    + assert (Hone : Forall (fun k => (k mod R = 0)%Z) [r])
        by (constructor; [exact Hmult | constructor]).
      destruct (get_choice i (stdin (note_escalation st1 r)))
        as [[user_choice|e|] rest];
        try (inversion Hrun; subst; exists [r]; cbn; rewrite H1; auto; fail).
      destruct (str_eqb (lower user_choice) "n").
      { destruct chapter; inversion Hrun; subst; exists [r]; cbn;
          rewrite H1; auto. }
      destruct (str_eqb (lower user_choice) "c").
      * destruct (input (set_stdin (note_escalation st1 r) rest))
          as [[new_url|e|] st2] eqn:Hin;
          unfold input in Hin; cbn [stdin set_stdin] in Hin;
          destruct rest as [|line rest']; inversion Hin; subst;
          try (inversion Hrun; subst; exists [r]; cbn; rewrite H1; auto; fail).
        apply IH in Hrun. destruct Hrun as [new [E Hnew]].
        cbn in E. rewrite H1 in E.
        exists (r :: new). split.
        -- rewrite E, <- app_assoc. reflexivity.
        -- constructor; [exact Hmult | exact Hnew].
      * apply IH in Hrun. destruct Hrun as [new [E Hnew]].
        cbn in E. rewrite H1 in E.
        exists (r :: new). split.
        -- rewrite E, <- app_assoc. reflexivity.
        -- constructor; [exact Hmult | exact Hnew].
    + apply IH in Hrun. destruct Hrun as [new [E Hnew]].
      rewrite H1 in E. exists new. auto.
Qed.

(** A page that never has the content block, an operator who always answers
    y: the loop is still retrying when the oracle runs out, and it has called
    [get_choice] exactly at the counters that are multiples of
    [max_retries]. *)
Lemma scrape_loop_retrying (url : str) (i : Z) (chapter : option EpubHtml)
    (net : Web) :
  forall st r,
    never_content net url ->
    Forall (fun a => lower a = list_ascii_of_string "y") (stdin st) ->
    (List.length (filter (multiple_of R) (counters r (pages_received net url)))
     <= List.length (stdin st))%nat ->
    exists st',
      scrape_loop cfg net st url i r chapter = (Waiting, st', [])
      /\ escalations st'
         = escalations st
           ++ filter (multiple_of R) (counters r (pages_received net url))
      /\ chapters st' = chapters st
      /\ links_txt st' = links_txt st.
Proof.
  induction net as [|get net IH]; intros st r Hnever Hyes Hlen.
  - exists st. cbn. rewrite app_nil_r. auto.
  - assert (Hnever' : never_content net url)
      by (intros g Hg; apply Hnever; right; exact Hg).
    cbn [scrape_loop pages_received] in *.
    destruct (Hnever get (or_introl eq_refl)) as [E | [page [E [Hnone Hbtn]]]];
      rewrite E in *.
    { destruct (IH (logging st (LogFailedGet url)) r Hnever' Hyes Hlen)
        as [st' [Hrun [Hesc [Hch Hl]]]].
      exists st'. auto. }
    destruct (find_next_chapter_link_returns page Hbtn) as [next_url ->].
    destruct (Z.eqb_spec (max_retries cfg) 0) as [H0 | _]; [lia|].
    rewrite Hnone.
    set (st1 := if (8 mod max_retries cfg <? r)%Z
                then logging st (LogRetrying url r) else st).
    assert (H1 : escalations st1 = escalations st
                 /\ stdin st1 = stdin st /\ chapters st1 = chapters st
                 /\ links_txt st1 = links_txt st)
      by (subst st1; destruct (8 mod max_retries cfg <? r)%Z; cbn; auto).
    destruct H1 as [H1 [H2 [H3 H4]]].
    cbn [counters filter] in *.
    change (multiple_of R r) with (r mod max_retries cfg =? 0)%Z in *.
    destruct (r mod max_retries cfg =? 0)%Z.
    + cbn [stdin note_escalation]. rewrite H2.
      destruct (stdin st) as [|a rest] eqn:Hs; [cbn in Hlen; lia|].
      inversion Hyes as [|a' rest' Ha Hrest]; subst a' rest'.
      destruct (lower_yes a Ha) as [Hc [Hn Hcc]].
      cbn [get_choice]. rewrite Hc, Hn, Hcc.
      destruct (IH (set_stdin (note_escalation st1 r) rest) (r + 1)%Z Hnever')
        as [st' [Hrun [Hesc [Hch Hl]]]].
      * exact Hrest.
      * cbn [stdin set_stdin]. cbn [List.length] in Hlen. lia.
      * exists st'. split; [exact Hrun|]. cbn in Hesc, Hch, Hl.
        rewrite Hesc, Hch, Hl, H1, H3, H4, <- app_assoc. auto.
    + destruct (IH st1 (r + 1)%Z Hnever') as [st' [Hrun [Hesc [Hch Hl]]]].
      * rewrite H2. exact Hyes.
      * rewrite H2. exact Hlen.
      * exists st'. split; [exact Hrun|].
        rewrite Hesc, Hch, Hl, H1, H3, H4. auto.
Qed.

End RetryLoop.

Lemma counters_from_one (f : nat) : counters 1 f = map Z.of_nat (seq 1 f).
Proof.
  rewrite counters_seq, <- seq_shift, map_map.
  apply map_ext. intros j. lia.
Qed.

(** C6: with [max_retries] = R >= 1, any run of [scrape_one_webpage] calls
    [get_choice] only with the retry counter at a multiple of R.  For a page
    that never has the content block and an operator who answers y each
    time, the run is still retrying after all the answers of the oracle; the
    calls of [get_choice] were made exactly at the multiples of R among the
    counters 1, ..., f, where f counts the pages received (transport
    failures leave the counter alone), which makes f / R calls; and after a
    single failed attempt, with R > 1, none. *)
Theorem escalation_every_max_retries `{L : Libraries} (cfg : Config) :
  (1 <= max_retries cfg)%Z ->
  let R := max_retries cfg in
  (forall net st url i res st' net',
      scrape_one_webpage cfg net st (Some url) i 1 = (res, st', net') ->
      exists new, escalations st' = escalations st ++ new
                  /\ Forall (fun k => (k mod R = 0)%Z) new)
  /\ (forall net st url i,
      never_content net url ->
      Forall (fun a => lower a = list_ascii_of_string "y") (stdin st) ->
      (Z.of_nat (pages_received net url) / R
       <= Z.of_nat (List.length (stdin st)))%Z ->
      let f := pages_received net url in
      let asked := filter (multiple_of R) (map Z.of_nat (seq 1 f)) in
      exists st',
        scrape_one_webpage cfg net st (Some url) i 1 = (Waiting, st', [])
        /\ escalations st' = escalations st ++ asked
        /\ Z.of_nat (List.length asked) = (Z.of_nat f / R)%Z
        /\ ((1 < R)%Z -> f = 1%nat -> escalations st' = escalations st)
        /\ chapters st' = chapters st).
Proof.
  intros HR R. split.
  - intros net st url i res st' net' Hrun.
    exact (scrape_loop_escalations cfg net st url i 1%Z None res st' net' Hrun).
  - intros net st url i Hnever Hyes Hlen f asked.
    change (Z.of_nat f / R <= Z.of_nat (List.length (stdin st)))%Z in Hlen.
    assert (Hcount : Z.of_nat (List.length asked) = (Z.of_nat f / R)%Z)
      by (apply multiples_up_to; exact HR).
    destruct (scrape_loop_retrying cfg HR url i None net st 1%Z Hnever Hyes)
      as [st' [Hrun [Hesc [Hch _]]]].
    { rewrite counters_from_one.
      change (List.length asked <= List.length (stdin st))%nat. lia. }
    rewrite counters_from_one in Hesc.
    change (escalations st' = escalations st ++ asked) in Hesc.
    exists st'. repeat split; try assumption.
    intros H1 Hf. rewrite Hesc. subst asked. rewrite Hf. cbn [seq map filter].
    unfold multiple_of. rewrite Z.mod_1_l by exact H1.
    cbn [Z.of_nat Pos.of_succ_nat Z.eqb]. apply app_nil_r.
Qed.

Lemma escalation_every_max_retries_witness :
  let cfg := sample_cfg 3 5 None in
  let lost := always ConnectionError in
  let bare := always (Got empty_page) in
  let net := [lost; bare; bare; lost; bare; bare; bare; lost; bare; bare] in
  let st := set_stdin fresh [list_ascii_of_string "y"; list_ascii_of_string "Y"] in
  exists st',
    scrape_one_webpage cfg net st (Some (list_ascii_of_string "https://example.com/ch/1")) 1 1
    = (Waiting, st', [])
    /\ escalations st' = [3; 6]%Z.
Proof.
  intros cfg lost bare net st.
  destruct (proj2 (escalation_every_max_retries cfg ltac:(cbn; lia))
              net st (list_ascii_of_string "https://example.com/ch/1") 1%Z)
    as [st' [Hrun [Hesc _]]].
  - intros get Hget. cbn in Hget.
    repeat (destruct Hget as [<- | Hget];
            [first [left; reflexivity
                   | right; exists empty_page; repeat split; discriminate]|]).
    destruct Hget.
  - repeat constructor.
  - vm_compute. discriminate.
  - exists st'. split; [exact Hrun | exact Hesc].
Defined.

(** ** Skipping a chapter *)

(** C1 (what the code does): when the page lacks the content block, the
    retry counter is a multiple of [max_retries] and the operator answers n,
    [scrape_one_webpage] does not return: the placeholder is assigned to the
    content of [chapter], a local variable that nothing has been bound to in
    this call, and the call ends in [UnboundLocalError].  No chapter is
    appended and no next URL is handed back. *)
Theorem skip_raises_unbound_local `{L : Libraries} (cfg : Config)
    (get : str -> Response) (net : Web) (st : State) (url : str)
    (i r : Z) (page : Page) (answer : str) (rest : list str) :
  max_retries cfg <> 0%Z ->
  get url = Got page ->
  relevant_html_part page = None ->
  next_button page <> Some None ->
  (r mod max_retries cfg = 0)%Z ->
  stdin st = answer :: rest ->
  lower answer = list_ascii_of_string "n" ->
  exists st',
    scrape_one_webpage cfg (get :: net) st (Some url) i r
    = (Raised UnboundLocalError, st', net)
    /\ chapters st' = chapters st
    /\ epub_items st' = epub_items st
    /\ stdin st' = rest.
Proof.
  intros HR Hget Hnone Hbtn Hmult Hin Hn.
  cbn [scrape_one_webpage scrape_loop]. rewrite Hget.
  destruct (next_button page) as [[link|]|] eqn:Hb; [|congruence|];
    unfold find_next_chapter_link; rewrite Hb;
    [destruct (contains (domain_name cfg) link)|];
    (destruct (Z.eqb_spec (max_retries cfg) 0) as [|_]; [contradiction|];
     rewrite Hnone, Hmult; cbn [Z.eqb];
     destruct (8 mod max_retries cfg <? r)%Z;
     cbn [stdin note_escalation logging]; rewrite Hin; cbn [get_choice];
     rewrite Hn; cbn; eexists; repeat split).
Qed.

Lemma skip_raises_unbound_local_witness :
  let cfg := sample_cfg 1 5 (Some ch1) in
  let st := set_stdin fresh [list_ascii_of_string "n"] in
  exists st',
    scrape_one_webpage cfg [always (Got (page_with None (Some ch2)))] st
      (Some ch1) 1 1
    = (Raised UnboundLocalError, st', [])
    /\ chapters st' = [].
Proof.
  intros cfg st.
  destruct (skip_raises_unbound_local cfg
              (always (Got (page_with None (Some ch2)))) [] st ch1 1%Z 1%Z
              (page_with None (Some ch2)) (list_ascii_of_string "n") [])
    as [st' [Hrun [Hch _]]];
    try reflexivity; try discriminate.
  exists st'. split; [exact Hrun | exact Hch].
Defined.

(** ** The batch *)

(** C3 (what the code does): a batch of two from index 1, starting at a page
    that has content and no next link.  Index 1 is harvested; the call for
    index 2 has no URL and stops the loop with the loop variable at 2; the
    frontier keeps the URL; the range reported is 1-2, though chapter 1 is
    the last one produced, and the next run would start at index 3. *)
Theorem early_stop_reports_unharvested_index :
  let cfg := sample_cfg 3 2 (Some ch1) in
  let st := set_links_txt fresh (Some (ch1 ++ [LF])) in
  let net := [always (Got (page_with (Some some_text) None))] in
  exists st',
    create_epub cfg net st = (Returned tt, st', [])
    /\ map title (chapters st') = [list_ascii_of_string "Chapter 1"]
    /\ links_txt st' = Some (ch1 ++ [LF])
    /\ output_file_path st' = list_ascii_of_string "epub/My_Novel/1-2"
    /\ listing st' = Some [(range_name 1 2, true)]
    /\ initial_chapter_number st' = 3%Z.
Proof.
  cbv zeta. eexists. split; [vm_compute; reflexivity|].
  repeat split.
Qed.

(** ** Failures *)


Section Disk.
Context {L : Libraries}.
Variable cfg : Config.

Lemma same_disk_refl (st : State) : same_disk st st.
Proof. repeat split. Qed.

Lemma same_disk_trans (a b c : State) :
  same_disk a b -> same_disk b c -> same_disk a c.
Proof.
  unfold same_disk. intros [? [? [? ?]]] [? [? [? ?]]].
  repeat split; congruence.
Qed.

Ltac disk_now Hrun :=
  inversion Hrun; subst; repeat split; reflexivity.

Ltac disk_step IH Hrun :=
  apply IH in Hrun; eapply same_disk_trans; [|exact Hrun]; repeat split.

(** The retry loop touches nothing on disk. *)
Lemma scrape_loop_same_disk (net : Web) :
  forall st url i r chapter res st' net',
    scrape_loop cfg net st url i r chapter = (res, st', net') ->
    same_disk st st'.
Proof.
  induction net as [|get net IH]; intros st url i r chapter res st' net' Hrun;
    cbn [scrape_loop] in Hrun.
  - disk_now Hrun.
  - destruct (get url) as [|page]; [disk_step IH Hrun|].
    destruct (find_next_chapter_link cfg page) as [next_url|e|];
      [|disk_now Hrun|disk_now Hrun].
    destruct (max_retries cfg =? 0)%Z; [disk_now Hrun|].
    destruct (relevant_html_part page) as [prettified|];
      [destruct (8 mod max_retries cfg <? r)%Z; disk_now Hrun|].
    destruct (r mod max_retries cfg =? 0)%Z.
    + destruct (get_choice i _) as [[user_choice|e|] rest];
        [|destruct (8 mod max_retries cfg <? r)%Z; disk_now Hrun
         |destruct (8 mod max_retries cfg <? r)%Z; disk_now Hrun].
      destruct (str_eqb (lower user_choice) "n").
      { destruct chapter; destruct (8 mod max_retries cfg <? r)%Z;
          disk_now Hrun. }
      destruct (str_eqb (lower user_choice) "c").
      * unfold input in Hrun. cbn [stdin set_stdin] in Hrun.
        destruct rest as [|line rest'];
          [destruct (8 mod max_retries cfg <? r)%Z; disk_now Hrun|].
        destruct (8 mod max_retries cfg <? r)%Z; disk_step IH Hrun.
      * destruct (8 mod max_retries cfg <? r)%Z; disk_step IH Hrun.
    + destruct (8 mod max_retries cfg <? r)%Z; disk_step IH Hrun.
Qed.

Lemma scrape_one_webpage_same_disk (net : Web) (st : State)
    (web_url : option str) (i r : Z) res st' net' :
  scrape_one_webpage cfg net st web_url i r = (res, st', net') ->
  same_disk st st'.
Proof.
  unfold scrape_one_webpage. destruct web_url as [url|].
  - apply scrape_loop_same_disk.
  - intros H. disk_now H.
Qed.

(** So does the loop over the indices; and once its body has run, the loop
    variable is bound. *)
Lemma for_pages_same_disk (n : nat) :
  forall i net st current_url last_valid_url last_i res st' net',
    for_pages cfg n i net st current_url last_valid_url last_i
    = (res, st', net') ->
    same_disk st st'
    /\ forall last_url last_i',
         res = Returned (last_url, last_i') ->
         (n <> O \/ last_i <> None) -> last_i' <> None.
Proof.
  induction n as [|n IH];
    intros i net st current_url last_valid_url last_i res st' net' Hrun;
    cbn [for_pages] in Hrun.
  - inversion Hrun; subst. split; [apply same_disk_refl|].
    intros last_url last_i' E [H | H]; [congruence|].
    inversion E; subst. exact H.
  - destruct (scrape_one_webpage cfg net st current_url i 1)
      as [[[[has_more_pages next_url]|e|] st1] net1] eqn:Hone;
      apply scrape_one_webpage_same_disk in Hone.
    + destruct has_more_pages.
      * apply IH in Hrun. destruct Hrun as [Hdisk Hbound]. split.
        -- eapply same_disk_trans; eassumption.
        -- intros last_url last_i' E _. apply (Hbound _ _ E).
           right. discriminate.
      * inversion Hrun; subst. split; [exact Hone|].
        intros last_url last_i' E _. inversion E. discriminate.
    + inversion Hrun; subst. split; [exact Hone | discriminate].
    + inversion Hrun; subst. split; [exact Hone | discriminate].
Qed.

End Disk.





(** ** Cleaning *)

Lemma split_lines_nonempty (s : str) : split_lines s <> [].
Proof.
  destruct s as [|c s]; cbn [split_lines]; [discriminate|].
  destruct (ascii_eqb c LF); [discriminate|].
  destruct (split_lines s); discriminate.
Qed.

(** Joining the pieces gives the text back. *)
Lemma join_split_lines (s : str) : join_lines (split_lines s) = s.
Proof.
  induction s as [|c s IH]; [reflexivity|].
  cbn [split_lines].
  pose proof (split_lines_nonempty s) as Hne.
  destruct (ascii_eqb c LF) eqn:E.
  - apply ascii_eqb_eq in E. subst c.
    destruct (split_lines s) as [|l ls]; [congruence|].
    cbn [join_lines app] in *. rewrite IH. reflexivity.
  - destruct (split_lines s) as [|l ls]; [congruence|].
    destruct ls as [|l' ls]; cbn [join_lines app] in *; rewrite IH; reflexivity.
Qed.

Lemma filter_all (A : Type) (f : A -> bool) (l : list A) :
  (forall x, In x l -> f x = true) -> filter f l = l.
Proof.
  induction l as [|x l IH]; intros H; [reflexivity|].
  cbn [filter]. rewrite (H x (or_introl eq_refl)), IH; [reflexivity|].
  intros y Hy. apply H. right; exact Hy.
Qed.

(** Line removal leaves a text alone when no line has the pattern. *)
Lemma remove_pattern_fix (data match_string : str) :
  (forall line, In line (split_lines data) ->
     contains (lower match_string) (lower line) = false) ->
  remove_pattern data match_string = data.
Proof.
  intros H. unfold remove_pattern. rewrite filter_all.
  - apply join_split_lines.
  - intros line Hl. rewrite (H line Hl). reflexivity.
Qed.

Lemma contains_false_inv (p : str) (c : ascii) (s : str) :
  contains p (c :: s) = false ->
  starts_with p (c :: s) = false /\ contains p s = false.
Proof. cbn [contains]. intros H. apply orb_false_iff in H. exact H. Qed.

Lemma first_match_none (excl : list str) (s : str) :
  (forall e, In e excl -> starts_with e s = false) ->
  first_match excl s = None.
Proof.
  induction excl as [|e excl IH]; intros H; [reflexivity|].
  cbn [first_match]. rewrite (H e (or_introl eq_refl)).
  apply IH. intros e' He'. apply H. right; exact He'.
Qed.

Lemma nonempty_alternatives_In (excl : list str) (e : str) :
  In e (nonempty_alternatives excl) <-> In e excl /\ e <> [].
Proof.
  unfold nonempty_alternatives. rewrite filter_In.
  destruct e; split; intros [H1 H2]; split; congruence || discriminate.
Qed.

(** Substitution leaves a text alone when no alternative occurs in it. *)
Lemma remove_exclusions_fix (data : str) (excl : list str) :
  (forall e, In e excl -> contains e data = false) ->
  remove_exclusions data excl = data.
Proof.
  unfold remove_exclusions. induction data as [|c s IH]; intros H; [reflexivity|].
  cbn [sub_empty]. rewrite first_match_none.
  - rewrite IH; [reflexivity|].
    intros e He. apply (contains_false_inv e c s). apply H; exact He.
  - intros e He. apply nonempty_alternatives_In in He.
    apply (contains_false_inv e c s). apply H. apply He.
Qed.

Lemma first_match_some (excl : list str) (s e : str) :
  first_match excl s = Some e -> In e excl /\ starts_with e s = true.
Proof.
  induction excl as [|e' excl IH]; cbn [first_match]; [discriminate|].
  destruct (starts_with e' s) eqn:E; intros H.
  - inversion H; subst. split; [left; reflexivity | exact E].
  - destruct (IH H) as [Hin Hs]. split; [right; exact Hin | exact Hs].
Qed.

Lemma first_match_none_inv (excl : list str) (s : str) :
  first_match excl s = None ->
  forall e, In e excl -> starts_with e s = false.
Proof.
  induction excl as [|e' excl IH]; cbn [first_match]; intros H e Hin.
  - destruct Hin.
  - destruct (starts_with e' s) eqn:E; [discriminate|].
    destruct Hin as [<- | Hin]; [exact E | apply IH; assumption].
Qed.

(** Skipping and removing only take characters away. *)
Lemma sub_empty_length (excl : list str) (s : str) :
  forall skip,
    (List.length (sub_empty excl skip s) <= List.length s - skip)%nat.
Proof.
  induction s as [|c s IH]; intros skip; cbn [sub_empty List.length]; [lia|].
  destruct skip as [|k].
  - destruct (first_match (nonempty_alternatives excl) (c :: s)) as [e|].
    + destruct (List.length e) as [|k].
      * cbn [Nat.sub]. specialize (IH O). lia.
      * cbn [Nat.sub]. rewrite Nat.sub_0_r. specialize (IH k). lia.
    + cbn [List.length]. specialize (IH O). lia.
  - specialize (IH k). lia.
Qed.

Lemma sub_empty_shrinks (excl : list str) (s : str) :
  Forall (fun e => e <> []) excl ->
  (exists e, In e excl /\ contains e s = true) ->
  (List.length (sub_empty excl O s) < List.length s)%nat.
Proof.
  intros Hne. induction s as [|c s IH]; intros [e [Hin Hc]].
  - cbn in Hc. rewrite orb_false_r in Hc.
    destruct e as [|a e]; [|discriminate].
    rewrite Forall_forall in Hne. exfalso. exact (Hne [] Hin eq_refl).
  - assert (Hin' : In e (nonempty_alternatives excl)).
    { apply nonempty_alternatives_In. split; [exact Hin|].
      rewrite Forall_forall in Hne. exact (Hne e Hin). }
    cbn [sub_empty List.length].
    destruct (first_match (nonempty_alternatives excl) (c :: s))
      as [e'|] eqn:Hm.
    + destruct (first_match_some _ (c :: s) e' Hm) as [Hin'' _].
      apply nonempty_alternatives_In in Hin''. destruct Hin'' as [_ Hne'].
      destruct e' as [|a e']; [contradiction|].
      cbn [List.length Nat.sub]. rewrite Nat.sub_0_r.
      pose proof (sub_empty_length excl s (List.length e')). lia.
    + cbn [List.length]. apply -> Nat.succ_lt_mono. apply IH.
      exists e. split; [exact Hin|].
      cbn [contains] in Hc. apply orb_true_iff in Hc.
      destruct Hc as [Hc | Hc]; [|exact Hc].
      rewrite (first_match_none_inv _ (c :: s) Hm e Hin') in Hc. discriminate.
Qed.

(** Joined lines: what dropping lines does to the length. *)
Lemma join_lines_cons_length (l : str) (ls : list str) :
  List.length (join_lines (l :: ls))
  = (List.length l
     + match ls with [] => 0 | _ :: _ => S (List.length (join_lines ls)) end)%nat.
Proof.
  destruct ls as [|l2 ls]; cbn [join_lines]; [lia|].
  rewrite length_app. cbn [List.length]. lia.
Qed.

Lemma join_lines_filter_length (f : str -> bool) (ls : list str) :
  (List.length (join_lines (filter f ls)) <= List.length (join_lines ls))%nat.
Proof.
  induction ls as [|l ls IH]; [cbn; lia|].
  cbn [filter]. destruct (f l).
  - rewrite !join_lines_cons_length.
    destruct ls as [|l2 ls2]; [cbn; lia|].
    destruct (filter f (l2 :: ls2)) as [|k ks]; lia.
  - rewrite join_lines_cons_length.
    destruct ls as [|l2 ls2]; [cbn; lia | lia].
Qed.

Lemma join_lines_filter_shorter (f : str -> bool) (ls : list str) :
  (exists l, In l ls /\ f l = false /\ l <> []) ->
  (List.length (join_lines (filter f ls)) < List.length (join_lines ls))%nat.
Proof.
  induction ls as [|l ls IH]; intros [l0 [Hin [Hf Hne]]]; [destruct Hin|].
  destruct Hin as [<- | Hin].
  - cbn [filter]. rewrite Hf, join_lines_cons_length.
    pose proof (join_lines_filter_length f ls) as Hle.
    assert (1 <= List.length l)%nat
      by (destruct l; [congruence | cbn [List.length]; lia]).
    destruct ls as [|l2 ls2]; [cbn in *; lia | lia].
  - assert (Hlt : (List.length (join_lines (filter f ls))
                   < List.length (join_lines ls))%nat)
      by (apply IH; exists l0; auto).
    cbn [filter]. destruct (f l).
    + rewrite !join_lines_cons_length.
      destruct ls as [|l2 ls2]; [destruct Hin|].
      destruct (filter f (l2 :: ls2)) as [|k ks]; lia.
    + rewrite join_lines_cons_length.
      destruct ls as [|l2 ls2]; [destruct Hin | lia].
Qed.

(** The two removal passes leave a text as it is exactly when it has no
    forbidden pattern. *)
Lemma removal_passes_fix_iff (y : str) :
  remove_exclusions (remove_pattern y (list_ascii_of_string "libread.com"))
    exclusions = y
  <-> no_forbidden_pattern y.
Proof.
  split.
  - intros H.
    pose proof (sub_empty_length exclusions
                  (remove_pattern y (list_ascii_of_string "libread.com")) O)
      as Hlen1.
    fold (remove_exclusions
            (remove_pattern y (list_ascii_of_string "libread.com"))
            exclusions) in Hlen1.
    rewrite H in Hlen1.
    assert (Hlines : forall line, In line (split_lines y) ->
              contains (lower (list_ascii_of_string "libread.com"))
                (lower line) = false).
    { intros line Hin.
      destruct (contains (lower (list_ascii_of_string "libread.com"))
                  (lower line)) eqn:E; [|reflexivity].
      exfalso.
      assert (Hlt : (List.length
                       (remove_pattern y (list_ascii_of_string "libread.com"))
                     < List.length (join_lines (split_lines y)))%nat).
      { unfold remove_pattern. apply join_lines_filter_shorter.
        exists line. split; [exact Hin|]. split; [rewrite E; reflexivity|].
        intros ->. vm_compute in E. discriminate. }
      rewrite join_split_lines in Hlt. lia. }
    split; [exact Hlines|].
    rewrite (remove_pattern_fix y _ Hlines) in H.
    intros e He. destruct (contains e y) eqn:E; [|reflexivity].
    exfalso.
    assert (Hlt : (List.length (sub_empty exclusions O y)
                   < List.length y)%nat).
    { apply sub_empty_shrinks.
      - repeat constructor; discriminate.
      - exists e. auto. }
    unfold remove_exclusions in H. rewrite H in Hlt. lia.
  - intros [Hlines Hexcl].
    rewrite remove_pattern_fix by exact Hlines.
    apply remove_exclusions_fix. exact Hexcl.
Qed.

(** C2 (as amended): for a text cleaned once that NFKC leaves as it is.
    The second cleaning parses, strips of its last [p] element and prints
    what its two removal passes leave of the text, and these leave the text
    as it is exactly when it has no forbidden pattern.  When it has none:
    with no [p] element in the text, the second cleaning removes nothing,
    its result is the text parsed and printed again, so that the cleaner is
    idempotent there exactly when the library prints the text back as it
    is; with [p] elements in the text, the second cleaning takes the last
    of them away. *)
Theorem clean_text_idempotent `{L : Libraries} (x : str) :
  let y := clean_text x in
  let left_by_passes :=
    remove_exclusions (remove_pattern y (list_ascii_of_string "libread.com"))
      exclusions in
  normalize_NFKC y = y ->
  clean_text (clean_text x) = decode (remove_last_p_tag left_by_passes)
  /\ (left_by_passes = y <-> no_forbidden_pattern y)
  /\ (no_forbidden_pattern y ->
      (find_all (html_parser y) (list_ascii_of_string "p") = [] ->
       clean_text (clean_text x) = decode (html_parser y)
       /\ (clean_text (clean_text x) = clean_text x
           <-> decode (html_parser y) = y))
      /\ (forall before last_p,
            find_all (html_parser y) (list_ascii_of_string "p")
            = before ++ [last_p] ->
            clean_text (clean_text x)
            = decode (extract (html_parser y) last_p))).
Proof.
  intros y left_by_passes Hnorm. fold y.
  assert (Hpass : clean_text y = decode (remove_last_p_tag left_by_passes)).
  { unfold clean_text at 1. rewrite Hnorm. reflexivity. }
  split; [exact Hpass|].
  split; [apply removal_passes_fix_iff|].
  intros Hnone. rewrite Hpass.
  rewrite (proj2 (removal_passes_fix_iff y) Hnone : left_by_passes = y).
  unfold remove_last_p_tag.
  change (find_all (html_parser y) "p")
    with (find_all (html_parser y) (list_ascii_of_string "p")).
  split.
  - intros Hp. rewrite Hp. split; [reflexivity | tauto].
  - intros before last_p Hp. rewrite Hp, rev_app_distr. reflexivity.
Qed.

Lemma no_forbidden_pattern_check (y : str) :
  forallb (fun line =>
             negb (contains (lower (list_ascii_of_string "libread.com"))
                     (lower line))) (split_lines y) = true ->
  forallb (fun e => negb (contains e y)) exclusions = true ->
  no_forbidden_pattern y.
Proof.
  intros H1 H2. rewrite forallb_forall in H1, H2. split.
  - intros line Hl. apply negb_true_iff. apply H1; exact Hl.
  - intros e He. apply negb_true_iff. apply H2; exact He.
Qed.

Lemma clean_text_idempotent_witness :
  clean_text (L := Markup.ascii_tags) bare_text
  = list_ascii_of_string "<div>Once upon a time.</div>"
  /\ clean_text (L := Markup.ascii_tags)
       (clean_text (L := Markup.ascii_tags) bare_text)
     = clean_text (L := Markup.ascii_tags) bare_text
  /\ clean_text (L := Markup.ascii_tags)
       (clean_text (L := Markup.ascii_tags) some_text)
     = list_ascii_of_string "<div></div>".
Proof.
  assert (Hb : no_forbidden_pattern
                 (clean_text (L := Markup.ascii_tags) bare_text)).
  { apply no_forbidden_pattern_check; reflexivity. }
  assert (Hs : no_forbidden_pattern
                 (clean_text (L := Markup.ascii_tags) some_text)).
  { apply no_forbidden_pattern_check; reflexivity. }
  split; [reflexivity | split].
  - apply (proj1 (proj2 (proj2 (clean_text_idempotent
                                  (L := Markup.ascii_tags) bare_text eq_refl))
                    Hb)).
    + reflexivity.
    + reflexivity.
  - rewrite (proj2 (proj2 (proj2 (clean_text_idempotent
                                    (L := Markup.ascii_tags) some_text
                                    eq_refl)) Hs)
               [] [0; 0]%nat eq_refl).
    reflexivity.
Defined.

(** C2 (as stated) fails on three texts, each cleaned once without a
    forbidden pattern left.  With two paragraphs: each cleaning takes the
    last [p] element away, so the second one removes the paragraph the first
    one kept.  With a character reference and no paragraph: the parser reads
    the reference as the no-break space, the first cleaning prints that
    character, and the second one starts by normalising it into a blank.
    With blanks around the only paragraph: the first cleaning prints the two
    blanks that stood around the paragraph next to each other, and the
    second one reads them as one text of white space, which the parser
    keeps as one blank. *)
Lemma clean_text_not_idempotent :
  let once := clean_text (L := Markup.ascii_tags) some_text in
  let twice := clean_text (L := Markup.ascii_tags) once in
  once = list_ascii_of_string "<div><p>Once upon a time.</p></div>"
  /\ twice = list_ascii_of_string "<div></div>"
  /\ twice <> once
  /\ normalize_NFKC (Libraries := Markup.ascii_tags) once = once
  /\ remove_pattern once (list_ascii_of_string "libread.com") = once
  /\ remove_exclusions once exclusions = once
  /\ (let once' := clean_text (L := Markup.ascii_tags) nbsp_text in
      let twice' := clean_text (L := Markup.ascii_tags) once' in
      once' = list_ascii_of_string "<div>Once" ++ [Markup.NBSP]
              ++ list_ascii_of_string "upon a time.</div>"
      /\ twice' = list_ascii_of_string "<div>Once upon a time.</div>"
      /\ twice' <> once'
      /\ find_all (Libraries := Markup.ascii_tags)
           (html_parser (Libraries := Markup.ascii_tags) once')
           (list_ascii_of_string "p") = []
      /\ remove_pattern once' (list_ascii_of_string "libread.com") = once'
      /\ remove_exclusions once' exclusions = once'
      /\ decode (Libraries := Markup.ascii_tags)
           (html_parser (Libraries := Markup.ascii_tags) once') = once')
  /\ (let once' := clean_text (L := Markup.ascii_tags) spaced_text in
      let twice' := clean_text (L := Markup.ascii_tags) once' in
      once' = list_ascii_of_string "<div>  </div>"
      /\ twice' = list_ascii_of_string "<div> </div>"
      /\ twice' <> once'
      /\ find_all (Libraries := Markup.ascii_tags)
           (html_parser (Libraries := Markup.ascii_tags) once')
           (list_ascii_of_string "p") = []
      /\ normalize_NFKC (Libraries := Markup.ascii_tags) once' = once'
      /\ remove_pattern once' (list_ascii_of_string "libread.com") = once'
      /\ remove_exclusions once' exclusions = once').
Proof.
  cbv zeta. repeat split; try (vm_compute; discriminate).
Qed.

(** * More of the class *)

(** ** Line removal *)

Lemma split_lines_plain (l : str) : ~ In LF l -> split_lines l = [l].
Proof.
  induction l as [|c l IH]; intros H; [reflexivity|].
  cbn [split_lines]. destruct (ascii_eqb c LF) eqn:E.
  - apply ascii_eqb_eq in E. exfalso. apply H. left. exact E.
  - rewrite IH; [reflexivity|]. intros Hin. apply H. right; exact Hin.
Qed.

Lemma split_lines_app (l t : str) :
  ~ In LF l -> split_lines (l ++ LF :: t) = l :: split_lines t.
Proof.
  induction l as [|c l IH]; intros H.
  - cbn [app split_lines]. rewrite ascii_eqb_refl. reflexivity.
  - cbn [app split_lines]. destruct (ascii_eqb c LF) eqn:E.
    + apply ascii_eqb_eq in E. exfalso. apply H. left. exact E.
    + rewrite IH; [reflexivity|]. intros Hin. apply H. right; exact Hin.
Qed.

(** No piece of a split has a line feed inside. *)
Lemma split_lines_pieces (s : str) :
  Forall (fun l => ~ In LF l) (split_lines s).
Proof.
  induction s as [|c s IH]; cbn [split_lines].
  - constructor; [intros [] | constructor].
  - destruct (ascii_eqb c LF) eqn:E.
    + constructor; [intros [] | exact IH].
    + pose proof (split_lines_nonempty s) as Hne.
      destruct (split_lines s) as [|l ls]; [congruence|].
      inversion IH as [|l' ls' Hl Hls]; subst.
      constructor; [|exact Hls].
      intros [Hc | Hin]; [|exact (Hl Hin)].
      apply ascii_eqb_neq in E. congruence.
Qed.

(** Splitting what was joined gives the pieces back. *)
Lemma split_join_lines (ps : list str) :
  ps <> [] -> Forall (fun l => ~ In LF l) ps ->
  split_lines (join_lines ps) = ps.
Proof.
  induction ps as [|l ps IH]; intros Hne Hps; [congruence|].
  inversion Hps as [|l' ps' Hl Hrest]; subst.
  destruct ps as [|l2 ps].
  - cbn [join_lines]. apply split_lines_plain; exact Hl.
  - change (join_lines (l :: l2 :: ps)) with (l ++ LF :: join_lines (l2 :: ps)).
    rewrite split_lines_app by exact Hl.
    rewrite IH; [reflexivity | discriminate | exact Hrest].
Qed.

Lemma Forall_filter (A : Type) (P : A -> Prop) (f : A -> bool) (l : list A) :
  Forall P l -> Forall P (filter f l).
Proof.
  induction 1 as [|x l Hx _ IH]; cbn [filter]; [constructor|].
  destruct (f x); [constructor; assumption | exact IH].
Qed.

Lemma filter_twice (A : Type) (f : A -> bool) (l : list A) :
  filter f (filter f l) = filter f l.
Proof.
  apply filter_all. intros x Hx. apply filter_In in Hx. apply Hx.
Qed.

Lemma remove_pattern_unfold (data match_string : str) :
  remove_pattern data match_string
  = join_lines (filter (keeps match_string) (split_lines data)).
Proof. reflexivity. Qed.

(** X1: the lines [remove_pattern] keeps are the lines of its result, in
    their order, unless it keeps none; and when the pattern is not empty, no
    line of the result has the pattern in it, in whatever case. *)
Theorem remove_pattern_lines (data match_string : str) :
  (filter (keeps match_string) (split_lines data) <> [] ->
   split_lines (remove_pattern data match_string)
   = filter (keeps match_string) (split_lines data))
  /\ (match_string <> [] ->
      forall line,
        In line (split_lines (remove_pattern data match_string)) ->
        contains (lower match_string) (lower line) = false).
Proof.
  rewrite remove_pattern_unfold.
  assert (Hsplit : filter (keeps match_string) (split_lines data) <> [] ->
                   split_lines (join_lines (filter (keeps match_string)
                                              (split_lines data)))
                   = filter (keeps match_string) (split_lines data)).
  { intros Hne. apply split_join_lines; [exact Hne|].
    apply Forall_filter. apply split_lines_pieces. }
  split; [exact Hsplit|].
  intros Hm line Hin.
  destruct (filter (keeps match_string) (split_lines data)) as [|p ps] eqn:E.
  - cbn in Hin. destruct Hin as [<- | []].
    destruct match_string as [|c m]; [congruence|]. reflexivity.
  - rewrite Hsplit in Hin by discriminate. rewrite <- E in Hin.
    apply filter_In in Hin. destruct Hin as [_ Hk].
    unfold keeps in Hk. apply negb_true_iff in Hk. exact Hk.
Qed.

Lemma remove_pattern_lines_witness :
  split_lines (remove_pattern
                 (list_ascii_of_string "one" ++ [LF]
                  ++ list_ascii_of_string "Visit LibRead.COM now" ++ [LF]
                  ++ list_ascii_of_string "two")
                 (list_ascii_of_string "libread.com"))
  = [list_ascii_of_string "one"; list_ascii_of_string "two"]
  /\ forall line,
       In line (split_lines (remove_pattern
                               (list_ascii_of_string "Visit LibRead.COM now")
                               (list_ascii_of_string "libread.com"))) ->
       contains (lower (list_ascii_of_string "libread.com")) (lower line) = false.
Proof.
  split.
  - rewrite (proj1 (remove_pattern_lines _ _)); [reflexivity|].
    vm_compute. discriminate.
  - apply (proj2 (remove_pattern_lines _ _)). discriminate.
Defined.

(** X2: removing the lines with a pattern a second time removes nothing. *)
Theorem remove_pattern_idempotent (data match_string : str) :
  remove_pattern (remove_pattern data match_string) match_string
  = remove_pattern data match_string.
Proof.
  rewrite (remove_pattern_unfold data).
  destruct (filter (keeps match_string) (split_lines data)) as [|p ps] eqn:E.
  - rewrite remove_pattern_unfold. cbn [join_lines split_lines filter].
    destruct (keeps match_string []); reflexivity.
  - rewrite remove_pattern_unfold, split_join_lines.
    + rewrite <- E, filter_twice. reflexivity.
    + discriminate.
    + rewrite <- E. apply Forall_filter. apply split_lines_pieces.
Qed.

(** ** Substitution *)

(** X3: [remove_exclusions] never makes the text longer, and with
    alternatives that are not empty it changes the text exactly when one of
    them occurs in it. *)
Theorem remove_exclusions_changes_iff (data : str) (excl : list str) :
  (List.length (remove_exclusions data excl) <= List.length data)%nat
  /\ (Forall (fun e => e <> []) excl ->
      (remove_exclusions data excl = data
       <-> forall e, In e excl -> contains e data = false)).
Proof.
  split.
  - unfold remove_exclusions.
    pose proof (sub_empty_length excl data O). lia.
  - intros Hne. split.
    + intros Hfix e Hin. destruct (contains e data) eqn:Hc; [|reflexivity].
      exfalso.
      assert (Hlt : (List.length (remove_exclusions data excl)
                     < List.length data)%nat).
      { apply sub_empty_shrinks; [exact Hne|]. exists e. auto. }
      rewrite Hfix in Hlt. lia.
    + apply remove_exclusions_fix.
Qed.

Lemma remove_exclusions_changes_iff_witness :
  remove_exclusions (list_ascii_of_string "Chapter 1. Once upon a time.")
    exclusions
  = list_ascii_of_string "Chapter 1. Once upon a time.".
Proof.
  apply (proj2 (remove_exclusions_changes_iff _ exclusions)).
  - repeat constructor; discriminate.
  - intros e He. vm_compute in He.
    repeat (destruct He as [<- | He]; [reflexivity|]). destruct He.
Defined.

(** ** Prompts *)

Lemma is_choice_spec (a : str) : is_choice (lower a) = true <-> valid_choice a.
Proof.
  unfold is_choice, valid_choice.
  rewrite !orb_true_iff, !str_eqb_eq. tauto.
Qed.

(** X4: [get_choice] passes over every answer that is not c, y or n (in
    either case), returns the first one that is, in lower case, and leaves
    what was typed after it; when no answer is one of the three it ends in
    [EOFError] with the input used up. *)
Theorem get_choice_first_valid (i : Z) (bad : list str) :
  Forall (fun b => ~ valid_choice b) bad ->
  (forall a rest,
      valid_choice a ->
      get_choice i (bad ++ a :: rest) = (Returned (lower a), rest))
  /\ get_choice i bad = (Raised EOFError, []).
Proof.
  induction 1 as [|b bad Hb _ [IH1 IH2]].
  - split; [|reflexivity]. intros a rest Ha. cbn [app get_choice].
    apply is_choice_spec in Ha. rewrite Ha. reflexivity.
  - assert (E : is_choice (lower b) = false).
    { destruct (is_choice (lower b)) eqn:E; [|reflexivity].
      apply is_choice_spec in E. contradiction. }
    split.
    + intros a rest Ha. cbn [app get_choice]. rewrite E. apply IH1; exact Ha.
    + cbn [get_choice]. rewrite E. exact IH2.
Qed.

Lemma get_choice_first_valid_witness :
  get_choice 7 [list_ascii_of_string "abort"; list_ascii_of_string "";
                list_ascii_of_string "N"; list_ascii_of_string "y"]
  = (Returned (list_ascii_of_string "n"), [list_ascii_of_string "y"]).
Proof.
  apply (proj1 (get_choice_first_valid 7
                  [list_ascii_of_string "abort"; list_ascii_of_string ""]
                  ltac:(repeat constructor; intros [H | [H | H]]; discriminate))
           (list_ascii_of_string "N") [list_ascii_of_string "y"]).
  right; right; reflexivity.
Defined.

(** X5: [get_int_input] passes over every line that [int] refuses, returns
    the integer of the first line it accepts and leaves what was typed after
    it; when [int] refuses every line it ends in [EOFError]. *)
Theorem get_int_input_first_int (py_int : str -> option Z) (bad : list str) :
  Forall (fun b => py_int b = None) bad ->
  (forall line n rest,
      py_int line = Some n ->
      get_int_input py_int (bad ++ line :: rest) = (Returned n, rest))
  /\ get_int_input py_int bad = (Raised EOFError, []).
Proof.
  induction 1 as [|b bad Hb _ [IH1 IH2]].
  - split; [|reflexivity]. intros line n rest Hn. cbn [app get_int_input].
    rewrite Hn. reflexivity.
  - split.
    + intros line n rest Hn. cbn [app get_int_input]. rewrite Hb.
      apply IH1; exact Hn.
    + cbn [get_int_input]. rewrite Hb. exact IH2.
Qed.

Lemma get_int_input_first_int_witness :
  get_int_input int_of_plain_digits
    [list_ascii_of_string "ten"; list_ascii_of_string "";
     list_ascii_of_string "25"; list_ascii_of_string "7"]
  = (Returned 25%Z, [list_ascii_of_string "7"]).
Proof.
  apply (proj1 (get_int_input_first_int int_of_plain_digits
                  [list_ascii_of_string "ten"; list_ascii_of_string ""]
                  ltac:(repeat constructor))
           (list_ascii_of_string "25") 25%Z [list_ascii_of_string "7"]).
  reflexivity.
Defined.

(** ** One page *)

Section OnePage.
Context {L : Libraries}.
Variable cfg : Config.

Ltac page_now Hrun := inversion Hrun; subst; cbn; auto.

(** What a run of the retry loop does to the chapters: a run that returns
    has appended one chapter, of the index asked for, made from a content
    block it received; any other run has appended none. *)
Lemma scrape_loop_chapters (net : Web) :
  forall st url i r res st' net',
    scrape_loop cfg net st url i r None = (res, st', net') ->
    match res with
    | Returned (b, _) =>
        b = true
        /\ exists body,
             chapters st' = chapters st ++ [new_chapter i (clean_text body)]
             /\ epub_items st'
                = epub_items st ++ [new_chapter i (clean_text body)]
    | _ => chapters st' = chapters st /\ epub_items st' = epub_items st
    end.
Proof.
  induction net as [|get net IH]; intros st url i r res st' net' Hrun;
    cbn [scrape_loop] in Hrun.
  - page_now Hrun.
  - destruct (get url) as [|page].
    { apply IH in Hrun. exact Hrun. }
    destruct (find_next_chapter_link cfg page) as [next_url|e|];
      [|page_now Hrun|page_now Hrun].
    destruct (max_retries cfg =? 0)%Z; [page_now Hrun|].
    destruct (relevant_html_part page) as [prettified|].
    { destruct (8 mod max_retries cfg <? r)%Z; inversion Hrun; subst;
        (split; [reflexivity | exists prettified; split; reflexivity]). }
    destruct (r mod max_retries cfg =? 0)%Z.
    + destruct (get_choice i _) as [[user_choice|e|] rest];
        [|destruct (8 mod max_retries cfg <? r)%Z; page_now Hrun
         |destruct (8 mod max_retries cfg <? r)%Z; page_now Hrun].
      destruct (str_eqb (lower user_choice) "n").
      { destruct (8 mod max_retries cfg <? r)%Z; page_now Hrun. }
      destruct (str_eqb (lower user_choice) "c").
      * unfold input in Hrun. cbn [stdin set_stdin] in Hrun.
        destruct rest as [|line rest'];
          [destruct (8 mod max_retries cfg <? r)%Z; page_now Hrun|].
        destruct (8 mod max_retries cfg <? r)%Z;
          apply IH in Hrun; exact Hrun.
      * destruct (8 mod max_retries cfg <? r)%Z;
          apply IH in Hrun; exact Hrun.
    + destruct (8 mod max_retries cfg <? r)%Z;
        apply IH in Hrun; exact Hrun.
Qed.

Lemma scrape_one_webpage_chapters (net : Web) (st : State)
    (web_url : option str) (i r : Z) res st' net' :
  scrape_one_webpage cfg net st web_url i r = (res, st', net') ->
  match res with
  | Returned (true, _) =>
      web_url <> None
      /\ exists body,
           chapters st' = chapters st ++ [new_chapter i (clean_text body)]
           /\ epub_items st'
              = epub_items st ++ [new_chapter i (clean_text body)]
  | Returned (false, next_url) =>
      web_url = None /\ next_url = None
      /\ chapters st' = chapters st /\ epub_items st' = epub_items st
  | _ => chapters st' = chapters st /\ epub_items st' = epub_items st
  end.
Proof.
  unfold scrape_one_webpage. destruct web_url as [url|]; intros Hrun.
  - apply scrape_loop_chapters in Hrun.
    destruct res as [[b next_url]|e|]; try exact Hrun.
    destruct Hrun as [-> Hbody]. split; [discriminate | exact Hbody].
  - inversion Hrun; subst. cbn. auto.
Qed.

End OnePage.



(** X7: with [max_retries] zero no fetch succeeds: whatever the server
    answers, [scrape_one_webpage] called with a URL never returns and never
    appends a chapter; as soon as a page arrives whose next button, if any,
    has its [href], the call ends in [ZeroDivisionError]. *)
Theorem zero_max_retries_never_returns `{L : Libraries} (cfg : Config) :
  max_retries cfg = 0%Z ->
  (forall net st url i r res st' net',
      scrape_one_webpage cfg net st (Some url) i r = (res, st', net') ->
      (forall x, res <> Returned x) /\ chapters st' = chapters st)
  /\ (forall fails get rest st url i r page,
      all_lost fails url ->
      get url = Got page ->
      next_button page <> Some None ->
      exists st',
        scrape_one_webpage cfg (fails ++ get :: rest) st (Some url) i r
        = (Raised ZeroDivisionError, st', rest)).
Proof.
  intros H0. unfold scrape_one_webpage. split.
  - intros net. induction net as [|get net IH];
      intros st url i r res st' net' Hrun; cbn [scrape_loop] in Hrun.
    + inversion Hrun; subst. split; [discriminate | reflexivity].
    + destruct (get url) as [|page].
      { apply IH in Hrun. exact Hrun. }
      rewrite H0 in Hrun. cbn [Z.eqb] in Hrun.
      destruct (find_next_chapter_link cfg page) as [next_url|e|];
        inversion Hrun; subst; (split; [discriminate | reflexivity]).
  - intros fails get rest st url i r page Hlost Hget Hbtn. revert st.
    induction Hlost as [|lost fails Hl _ IH]; intros st.
    + cbn [app scrape_loop]. rewrite Hget, H0.
      destruct (find_next_chapter_link_returns cfg page Hbtn) as [next_url ->].
      cbn [Z.eqb]. eexists. reflexivity.
    + cbn [app scrape_loop]. rewrite Hl. apply IH.
Qed.

Lemma zero_max_retries_never_returns_witness :
  let cfg := sample_cfg 0 5 (Some ch1) in
  exists st',
    scrape_one_webpage cfg
      [always ConnectionError; always (Got (page_with (Some some_text) None))]
      fresh (Some ch1) 1 1
    = (Raised ZeroDivisionError, st', []).
Proof.
  intros cfg.
  apply (proj2 (zero_max_retries_never_returns cfg eq_refl)
           [always ConnectionError]
           (always (Got (page_with (Some some_text) None))) [] fresh ch1
           1%Z 1%Z (page_with (Some some_text) None)).
  - repeat constructor.
  - reflexivity.
  - discriminate.
Defined.

(** ** The batch loop *)

Lemma consecutive_titles_cons (i : Z) (n : nat) :
  consecutive_titles i (S n)
  = (list_ascii_of_string "Chapter " ++ format_int i)
      :: consecutive_titles (i + 1) n.
Proof.
  unfold consecutive_titles. cbn [seq map]. rewrite Z.add_0_r. f_equal.
  rewrite <- seq_shift, map_map. apply map_ext. intros k.
  do 2 f_equal. lia.
Qed.

Section BatchLoop.
Context {L : Libraries}.
Variable cfg : Config.

(** The chapters a run of the loop over the indices appends carry the
    indices from [i] on, one after the other; and the loop variable it
    hands back is the last index when every fetch returned a chapter, the
    index after the last chapter when a fetch had no URL to go to. *)
Lemma for_pages_count (n : nat) :
  forall i net st current_url last_valid_url last_i res st' net',
    for_pages cfg n i net st current_url last_valid_url last_i
    = (res, st', net') ->
    exists added,
      chapters st' = chapters st ++ added
      /\ epub_items st' = epub_items st ++ added
      /\ map title added = consecutive_titles i (List.length added)
      /\ (List.length added <= n)%nat
      /\ forall last_url last_i',
           res = Returned (last_url, last_i') ->
           (n = O /\ last_i' = last_i)
           \/ (n <> O /\ List.length added = n
               /\ last_i' = Some (i + Z.of_nat n - 1)%Z)
           \/ ((List.length added < n)%nat
               /\ last_i' = Some (i + Z.of_nat (List.length added))%Z).
Proof.
  induction n as [|n IH];
    intros i net st current_url last_valid_url last_i res st' net' Hrun;
    cbn [for_pages] in Hrun.
  - inversion Hrun; subst. exists []. rewrite !app_nil_r.
    repeat split; try reflexivity; try (cbn; lia).
    intros last_url last_i' E. inversion E; subst. left. auto.
  - destruct (scrape_one_webpage cfg net st current_url i 1)
      as [[[[has_more_pages next_url]|e|] st1] net1] eqn:Hone;
      apply scrape_one_webpage_chapters in Hone.
    + destruct has_more_pages.
      * destruct Hone as [_ [body [Hc He]]].
        apply IH in Hrun.
        destruct Hrun as [added [Hc2 [He2 [Ht [Hlen Hidx]]]]].
        exists (new_chapter i (clean_text body) :: added).
        rewrite Hc2, He2, Hc, He, <- !app_assoc. cbn [app List.length map].
        rewrite consecutive_titles_cons, Ht.
        repeat split; try reflexivity; try lia.
        intros last_url last_i' E.
        destruct (Hidx _ _ E) as [[Hn Hl] | [[Hn [Hl Hi]] | [Hl Hi]]].
        -- right; left. subst n. destruct added; [|cbn in Hlen; lia].
           repeat split; [discriminate|]. rewrite Hl. f_equal. lia.
        -- right; left. repeat split; [discriminate | lia |].
           rewrite Hi. f_equal. lia.
        -- right; right. split; [lia|]. rewrite Hi. f_equal. lia.
      * destruct Hone as [_ [_ [Hc He]]].
        inversion Hrun; subst. exists []. rewrite !app_nil_r.
        repeat split; try assumption; try reflexivity; try (cbn; lia).
        intros last_url last_i' E. inversion E; subst.
        right; right. cbn [List.length]. split; [lia|]. f_equal. lia.
    + destruct Hone as [Hc He].
      inversion Hrun; subst. exists []. rewrite !app_nil_r.
      repeat split; try assumption; try reflexivity; try (cbn; lia).
      discriminate.
    + destruct Hone as [Hc He].
      inversion Hrun; subst. exists []. rewrite !app_nil_r.
      repeat split; try assumption; try reflexivity; try (cbn; lia).
      discriminate.
Qed.

Lemma write_to_file_fields (st : State) (value : option str) :
  chapters (write_to_file st value) = chapters st
  /\ epub_items (write_to_file st value) = epub_items st
  /\ output_file_path (write_to_file st value) = output_file_path st
  /\ listing (write_to_file st value) = listing st
  /\ epub_files (write_to_file st value) = epub_files st
  /\ stdin (write_to_file st value) = stdin st.
Proof.
  destruct value as [v|]; [|repeat split].
  destruct (write_to_file_cases st v) as [-> | ->]; repeat split.
Qed.

End BatchLoop.

(** ** Paths *)

Lemma contains_slash_false (s : str) :
  Forall (fun c => c <> "/"%char) s ->
  contains (list_ascii_of_string "/") s = false.
Proof.
  induction 1 as [|c s Hc _ IH]; [reflexivity|].
  cbn [contains]. rewrite IH, orb_false_r.
  change (list_ascii_of_string "/") with ["/"%char]. cbn [starts_with].
  apply andb_false_iff. left. apply ascii_eqb_neq. congruence.
Qed.

Lemma basename_plain (name : str) :
  contains (list_ascii_of_string "/") name = false -> basename name = name.
Proof.
  destruct name as [|c name]; [reflexivity|].
  intros H. cbn [basename]. rewrite H. reflexivity.
Qed.

Lemma basename_after_slash (q name : str) :
  contains (list_ascii_of_string "/") name = false ->
  basename (q ++ "/"%char :: name) = name.
Proof.
  intros H. induction q as [|c q IH].
  - cbn [app basename].
    replace (contains (list_ascii_of_string "/") ("/"%char :: name)) with true
      by reflexivity.
    apply basename_plain; exact H.
  - cbn [app basename].
    assert (E : contains (list_ascii_of_string "/")
                  (c :: q ++ "/"%char :: name) = true).
    { apply contains_spec. exists (c :: q), name. reflexivity. }
    rewrite E. exact IH.
Qed.

(** The last component of a joined path is the name joined on, when the
    name has no slash. *)
Lemma basename_path_join (p name : str) :
  contains (list_ascii_of_string "/") name = false ->
  basename (path_join p name) = name.
Proof.
  intros H. unfold path_join.
  assert (Hs : starts_with (list_ascii_of_string "/") name = false).
  { destruct name as [|c name]; [reflexivity|].
    cbn [contains] in H. apply orb_false_iff in H. apply H. }
  change (starts_with "/" name) with (starts_with (list_ascii_of_string "/") name).
  rewrite Hs.
  destruct (rev p) as [|c rp] eqn:Hr.
  - apply basename_plain; exact H.
  - destruct (ascii_eqb c "/") eqn:E.
    + apply ascii_eqb_eq in E. subst c.
      assert (Hp : p = rev rp ++ ["/"%char]).
      { rewrite <- (rev_involutive p), Hr. reflexivity. }
      rewrite Hp, <- app_assoc. apply basename_after_slash; exact H.
    + apply (basename_after_slash p name H).
Qed.

Lemma range_name_no_slash (a b : Z) :
  (0 <= a)%Z -> (0 <= b)%Z ->
  contains (list_ascii_of_string "/") (range_name a b) = false.
Proof.
  intros Ha Hb.
  destruct (format_int_nonneg a Ha) as [da [Ea [_ [Da _]]]].
  destruct (format_int_nonneg b Hb) as [db [Eb [_ [Db _]]]].
  unfold range_name. rewrite Ea, Eb. apply contains_slash_false.
  assert (Hd : forall ds, Forall (fun c => is_digit c = true) ds ->
                          Forall (fun c => c <> "/"%char) ds).
  { intros ds Hds. eapply Forall_impl; [|exact Hds].
    intros c Hc ->. discriminate. }
  apply Forall_app. split; [apply Hd; exact Da|].
  apply Forall_app. split; [repeat constructor; discriminate | apply Hd; exact Db].
Qed.

(** ** The batch and its report *)

Section Report.
Context {L : Libraries}.
Variable cfg : Config.

(** What a batch that returned has done. *)
Lemma scrape_worker_report (net : Web) (st st' : State) (net' : Web) :
  scrape_worker cfg (batch_size cfg) net st = (Returned tt, st', net') ->
  exists added j,
    chapters st' = chapters st ++ added
    /\ epub_items st' = epub_items st ++ added
    /\ map title added
       = consecutive_titles (initial_chapter_number st) (List.length added)
    /\ output_file_path st'
       = path_join (output_file_path st)
           (range_name (initial_chapter_number st) j)
    /\ listing st' = listing st
    /\ epub_files st' = epub_files st
    /\ ((List.length added = Z.to_nat (batch_size cfg)
         /\ j = (initial_chapter_number st + Z.of_nat (List.length added) - 1)%Z
         /\ added <> [])
        \/ ((List.length added < Z.to_nat (batch_size cfg))%nat
            /\ j = (initial_chapter_number st + Z.of_nat (List.length added))%Z)).
Proof.
  unfold scrape_worker. intros Hrun.
  destruct (for_pages cfg (Z.to_nat (batch_size cfg))
              (initial_chapter_number st) net st (initial_url cfg)
              (initial_url cfg) None)
    as [[[[last_url last_i]|e|] st1] net1] eqn:Hfor; try discriminate.
  destruct last_i as [j|]; [|discriminate].
  inversion Hrun; subst. clear Hrun.
  destruct (for_pages_same_disk cfg _ _ _ _ _ _ _ _ _ _ Hfor)
    as [[_ [Hlist [Hfiles Hpath]]] _].
  destruct (for_pages_count cfg _ _ _ _ _ _ _ _ _ _ Hfor)
    as [added [Hc [He [Ht [Hlen Hidx]]]]].
  destruct (write_to_file_fields st1 last_url)
    as [Wc [We [Wp [Wl [Wf _]]]]].
  exists added, j. cbn [config_ebook_path chapters epub_items output_file_path
                        listing epub_files set_output_file_path].
  rewrite Wc, We, Wp, Wl, Wf, Hc, He, Hlist, Hfiles, Hpath.
  repeat split; try reflexivity; try exact Ht.
  destruct (Hidx _ _ eq_refl) as [[_ Hn] | [[Hn [Hl Hi]] | [Hl Hi]]].
  - discriminate.
  - left. inversion Hi. repeat split; [exact Hl | lia |].
    intros ->. cbn in Hl. congruence.
  - right. inversion Hi. split; [exact Hl | reflexivity].
Qed.

End Report.

(** ** From one batch to the next *)

Lemma batch_ends_app (l1 l2 : list (str * bool)) :
  batch_ends (l1 ++ l2) = batch_ends l1 ++ batch_ends l2.
Proof.
  induction l1 as [|[name is_dir] l1 IH]; [reflexivity|].
  cbn [app batch_ends]. rewrite IH.
  destruct (match_range name) as [[a e]|]; [destruct is_dir|]; reflexivity.
Qed.

Lemma match_range_nonneg (name : str) (a e : Z) :
  match_range name = Some (a, e) -> (0 <= a)%Z /\ (0 <= e)%Z.
Proof.
  unfold match_range. destruct (span_digits name) as [ds1 rest].
  destruct ds1 as [|c1 ds1]; [discriminate|].
  destruct rest as [|c rest]; [discriminate|].
  destruct (ascii_eqb c "-"); [|discriminate].
  destruct (span_digits rest) as [ds2 rest2].
  destruct ds2 as [|c2 ds2]; [discriminate|].
  intros H. inversion H. unfold int_of_digits. split; apply N2Z.is_nonneg.
Qed.

Lemma batch_ends_nonneg (entries : list (str * bool)) (x : Z) :
  In x (batch_ends entries) -> (0 <= x)%Z.
Proof.
  intros H. apply In_batch_ends in H. destruct H as [name [a [_ Hm]]].
  apply match_range_nonneg in Hm. apply Hm.
Qed.

(** The start index is past every end in the listing, and at least 1. *)
Lemma initial_chapter_number_above (st : State) (entries : list (str * bool)) :
  listing st = Some entries ->
  (1 <= initial_chapter_number st)%Z
  /\ forall x, In x (batch_ends entries) -> (x < initial_chapter_number st)%Z.
Proof.
  intros Hl. unfold initial_chapter_number, get_last_chapter_scraped.
  rewrite Hl. pose proof (highest_end_spec entries None) as Hspec.
  destruct (highest_end entries None) as [h|].
  - destruct Hspec as [[H | H] [_ Hall]]; [discriminate|].
    apply batch_ends_nonneg in H. split; [lia|].
    intros x Hx. apply Hall in Hx. lia.
  - destruct Hspec as [_ Hnil]. rewrite Hnil. split; [lia | intros x []].
Qed.

Lemma initial_chapter_number_pos (st : State) :
  (1 <= initial_chapter_number st)%Z.
Proof.
  destruct (listing st) as [entries|] eqn:Hl.
  - apply (initial_chapter_number_above st entries Hl).
  - unfold initial_chapter_number, get_last_chapter_scraped. rewrite Hl. lia.
Qed.

Lemma make_output_dir_path (st : State) :
  output_file_path (make_output_dir st) = output_file_path st.
Proof.
  unfold make_output_dir. destruct (listing st) as [entries|];
    [destruct (existsb _ entries)|]; reflexivity.
Qed.

Lemma make_output_dir_fields (st : State) :
  chapters (make_output_dir st) = chapters st
  /\ epub_files (make_output_dir st) = epub_files st.
Proof.
  unfold make_output_dir. destruct (listing st) as [entries|];
    [destruct (existsb _ entries)|]; split; reflexivity.
Qed.

Lemma existsb_find {A : Type} (p : A -> bool) (l : list A) :
  existsb p l = match find p l with Some _ => true | None => false end.
Proof.
  induction l as [|a l IH]; [reflexivity|].
  cbn [existsb find]. destruct (p a); [reflexivity | exact IH].
Qed.

Lemma find_app_none {A : Type} (p : A -> bool) (l1 l2 : list A) :
  find p l1 = None -> find p (l1 ++ l2) = find p l2.
Proof.
  induction l1 as [|a l1 IH]; [reflexivity|].
  cbn [app find]. destruct (p a); [discriminate | exact IH].
Qed.

(** What [os.makedirs] behind its [os.path.exists] test leaves: under a
    plain file of the batch's name nothing changes and there is no
    directory to write into; in every other case the directory is there. *)
Lemma make_output_dir_cases (st : State) :
  let name := basename (output_file_path st) in
  (listed_as st name = Some false
   /\ make_output_dir st = st
   /\ batch_dir_ready (make_output_dir st) = false)
  \/ (listed_as st name <> Some false
      /\ batch_dir_ready (make_output_dir st) = true
      /\ listing (make_output_dir st)
         = match listing st with
           | Some entries =>
               match listed_as st name with
               | Some _ => Some entries
               | None => Some (entries ++ [(name, true)])
               end
           | None => Some [(name, true)]
           end).
Proof.
  intros name. unfold listed_as, make_output_dir, batch_dir_ready.
  fold name. destruct (listing st) as [entries|] eqn:Hl.
  - rewrite existsb_find.
    destruct (find (fun e => str_eqb (fst e) name) entries)
      as [[n b]|] eqn:Hf.
    + cbn [option_map snd]. cbv iota beta. fold name. rewrite Hl, Hf.
      destruct b.
      * right. split; [discriminate | split; reflexivity].
      * left. split; [reflexivity | split; reflexivity].
    + right. cbn [option_map]. split; [discriminate|].
      cbn [set_listing listing output_file_path]. fold name.
      rewrite (find_app_none _ entries _ Hf). cbn [find fst].
      rewrite str_eqb_refl. split; reflexivity.
  - right. split; [discriminate|].
    cbn [set_listing listing output_file_path]. fold name.
    cbn [find fst]. rewrite str_eqb_refl. split; reflexivity.
Qed.

Section Packaging.
Context {L : Libraries}.
Variable cfg : Config.

(** A call of [create_epub] that returns, taken apart: the batch, then the
    directory, then the book when there is a directory for it. *)
Lemma create_epub_returns (net : Web) (st st' : State) (net' : Web) :
  create_epub cfg net st = (Returned tt, st', net') ->
  exists st1 added j,
    scrape_worker cfg (batch_size cfg) net st = (Returned tt, st1, net')
    /\ chapters st1 = chapters st ++ added
    /\ map title added
       = consecutive_titles (initial_chapter_number st) (List.length added)
    /\ output_file_path st1
       = path_join (output_file_path st)
           (range_name (initial_chapter_number st) j)
    /\ basename (output_file_path st1)
       = range_name (initial_chapter_number st) j
    /\ listing st1 = listing st
    /\ epub_files st1 = epub_files st
    /\ (initial_chapter_number st <= j)%Z
    /\ ((List.length added = Z.to_nat (batch_size cfg)
         /\ j = (initial_chapter_number st + Z.of_nat (List.length added) - 1)%Z
         /\ added <> [])
        \/ ((List.length added < Z.to_nat (batch_size cfg))%nat
            /\ j = (initial_chapter_number st + Z.of_nat (List.length added))%Z))
    /\ st' = (if batch_dir_ready (make_output_dir st1)
              then add_epub_file (make_output_dir st1)
                     (path_join (output_file_path (make_output_dir st1))
                        (novel_name cfg ++ list_ascii_of_string " "
                         ++ format_int (batch_size cfg)
                         ++ list_ascii_of_string ".epub"))
                     (chapters (make_output_dir st1))
              else make_output_dir st1).
Proof.
  intros Hrun. unfold create_epub in Hrun.
  destruct (scrape_worker cfg (batch_size cfg) net st)
    as [[[[]|e|] st1] net1] eqn:Hw; try discriminate.
  assert (Hst : net1 = net'
                /\ st' = (if batch_dir_ready (make_output_dir st1)
              then add_epub_file (make_output_dir st1)
                     (path_join (output_file_path (make_output_dir st1))
                        (novel_name cfg ++ list_ascii_of_string " "
                         ++ format_int (batch_size cfg)
                         ++ list_ascii_of_string ".epub"))
                     (chapters (make_output_dir st1))
              else make_output_dir st1)).
  { destruct (batch_dir_ready (make_output_dir st1));
      inversion Hrun; subst; split; reflexivity. }
  destruct Hst as [-> Hst]. clear Hrun.
  destruct (scrape_worker_report cfg net st st1 net' Hw)
    as [added [j [Hc [_ [Ht [Hp [Hl1 [Hf Hcount]]]]]]]].
  pose proof (initial_chapter_number_pos st) as Hone.
  assert (Hj : (initial_chapter_number st <= j)%Z).
  { destruct Hcount as [[_ [-> Hne]] | [_ ->]]; [|lia].
    destruct added; [congruence | cbn [List.length]; lia]. }
  exists st1, added, j. repeat (split; [assumption || reflexivity|]).
  split.
  { rewrite Hp. apply basename_path_join. apply range_name_no_slash; lia. }
  repeat (split; [assumption|]). exact Hst.
Qed.

End Packaging.

(** X8: a call of [create_epub] that returns has appended chapters that
    carry the indices from the start index on, one after the other, and has
    named the batch directory by the start index and the last value of the
    loop variable.  That value is the index of the last chapter when the
    batch ran its full size; when the batch stopped for want of a next URL
    it is the index after the last chapter.  Unless the novel's directory
    holds a plain file of the batch directory's name, one book is written
    into the batch directory, its spine all the chapters of the object.
    When it holds such a file no directory is made and no book is
    written, though the call returns. *)
Theorem create_epub_report `{L : Libraries} (cfg : Config) (net : Web)
    (st st' : State) (net' : Web) :
  create_epub cfg net st = (Returned tt, st', net') ->
  let initial := initial_chapter_number st in
  exists added j,
    chapters st' = chapters st ++ added
    /\ map title added = consecutive_titles initial (List.length added)
    /\ output_file_path st'
       = path_join (output_file_path st) (range_name initial j)
    /\ ((List.length added = Z.to_nat (batch_size cfg)
         /\ j = (initial + Z.of_nat (List.length added) - 1)%Z
         /\ added <> [])
        \/ ((List.length added < Z.to_nat (batch_size cfg))%nat
            /\ j = (initial + Z.of_nat (List.length added))%Z))
    /\ (listed_as st (range_name initial j) <> Some false ->
        epub_files st'
        = epub_files st
          ++ [(path_join (output_file_path st')
                 (novel_name cfg ++ list_ascii_of_string " "
                  ++ format_int (batch_size cfg)
                  ++ list_ascii_of_string ".epub"),
               chapters st')])
    /\ (listed_as st (range_name initial j) = Some false ->
        epub_files st' = epub_files st /\ listing st' = listing st).
Proof.
  intros Hrun initial. subst initial.
  destruct (create_epub_returns cfg net st st' net' Hrun)
    as [st1 [added [j [_ [Hc [Ht [Hp [Hbase [Hl1 [Hf [_ [Hcount Hst]]]]]]]]]]]].
  exists added, j.
  assert (Hkind : listed_as st1 (basename (output_file_path st1))
                  = listed_as st (range_name (initial_chapter_number st) j)).
  { rewrite Hbase. unfold listed_as. rewrite Hl1. reflexivity. }
  destruct (make_output_dir_fields st1) as [Mc Mf].
  pose proof (make_output_dir_path st1) as Mp.
  destruct (make_output_dir_cases st1) as [[Hk [Hsame Hready]] | [Hk [Hready _]]];
    rewrite Hready in Hst; rewrite Hkind in Hk; subst st'.
  - rewrite Hsame. do 4 (split; [assumption|]). split.
    + intros Hno. contradiction.
    + intros _. split; assumption.
  - cbn [add_epub_file chapters output_file_path epub_files].
    rewrite Mc, Mp, Mf, Hc, Hp, Hf.
    do 4 (split; [assumption || reflexivity|]). split.
    + intros _. reflexivity.
    + intros Hyes. contradiction.
Qed.

Lemma create_epub_report_witness :
  let cfg := sample_cfg 3 2 (Some ch1) in
  let st := set_links_txt fresh (Some (ch1 ++ [LF])) in
  let blocked := set_listing st (Some [(range_name 1 2, false)]) in
  let both := [ always (Got (page_with (Some some_text) (Some ch2)));
                always (Got (page_with (Some some_text) None)) ] in
  (exists st' added,
      create_epub cfg both st = (Returned tt, st', [])
      /\ chapters st' = added
      /\ map title added
         = [list_ascii_of_string "Chapter 1"; list_ascii_of_string "Chapter 2"]
      /\ output_file_path st' = list_ascii_of_string "epub/My_Novel/1-2"
      /\ epub_files st'
         = [(list_ascii_of_string "epub/My_Novel/1-2/My Novel 2.epub", added)])
  /\ (exists st',
         create_epub cfg both blocked = (Returned tt, st', [])
         /\ List.length (chapters st') = 2%nat
         /\ epub_files st' = []
         /\ listing st' = Some [(range_name 1 2, false)]).
Proof.
  intros cfg st blocked both. split.
  - destruct (create_epub cfg both st) as [[res st'] net'] eqn:Hrun.
    assert (Hres : res = Returned tt /\ net' = []
                   /\ List.length (chapters st') = 2%nat
                   /\ output_file_path st'
                      = list_ascii_of_string "epub/My_Novel/1-2").
    { vm_compute in Hrun. inversion Hrun; subst. repeat split. }
    destruct Hres as [-> [-> [Hlen Hpath]]].
    destruct (create_epub_report cfg both st st' [] Hrun)
      as [added [j [Hc [Ht [Hp [Hcount [Hbook _]]]]]]].
    cbn [chapters st set_links_txt fresh app] in Hc.
    assert (Hj : j = 2%Z).
    { rewrite Hc in Hlen. rewrite Hlen in Hcount.
      destruct Hcount as [[_ [Hj _]] | [Hlt _]];
        [exact Hj | vm_compute in Hlt; lia]. }
    subst j. exists st', added. split; [reflexivity|]. split; [exact Hc|].
    rewrite Hc in Hlen. rewrite Hlen in Ht. split; [exact Ht|].
    split; [exact Hpath|].
    rewrite Hbook by (vm_compute; discriminate).
    rewrite Hpath, Hc. reflexivity.
  - destruct (create_epub cfg both blocked) as [[res st'] net'] eqn:Hrun.
    assert (Hres : res = Returned tt /\ net' = []
                   /\ List.length (chapters st') = 2%nat).
    { vm_compute in Hrun. inversion Hrun; subst. repeat split. }
    destruct Hres as [-> [-> Hlen]].
    destruct (create_epub_report cfg both blocked st' [] Hrun)
      as [added [j [Hc [_ [_ [Hcount [_ Hnone]]]]]]].
    cbn [chapters blocked st set_listing set_links_txt fresh app] in Hc.
    assert (Hj : j = 2%Z).
    { rewrite Hc in Hlen. rewrite Hlen in Hcount.
      destruct Hcount as [[_ [Hj _]] | [Hlt _]];
        [exact Hj | vm_compute in Hlt; lia]. }
    subst j. destruct (Hnone eq_refl) as [Hf Hl].
    exists st'. split; [reflexivity|]. split; [exact Hlen|].
    split; [exact Hf | exact Hl].
Defined.

(** X9: when [create_epub] returns, with a novel directory in which nothing
    but directories matches the batch pattern, the directory of the batch is
    new in the listing, it is named by the start index and an index that is
    not below it, the book is written into it, and a new object made for
    the same novel, which finds that listing under the novel's directory,
    starts its batch right after that index. *)
Theorem next_batch_follows_report `{L : Libraries} (cfg : Config) (net : Web)
    (st st' : State) (net' : Web) (entries : list (str * bool))
    (st2 : State) :
  create_epub cfg net st = (Returned tt, st', net') ->
  listing st = Some entries ->
  (forall name, In (name, false) entries -> match_range name = None) ->
  output_file_path st2 = output_file_path st ->
  listing st2 = listing st' ->
  exists j,
    (initial_chapter_number st <= j)%Z
    /\ output_file_path st'
       = path_join (output_file_path st)
           (range_name (initial_chapter_number st) j)
    /\ listing st'
       = Some (entries ++ [(range_name (initial_chapter_number st) j, true)])
    /\ epub_files st'
       = epub_files st
         ++ [(path_join (output_file_path st')
                (novel_name cfg ++ list_ascii_of_string " "
                 ++ format_int (batch_size cfg)
                 ++ list_ascii_of_string ".epub"),
              chapters st')]
    /\ initial_chapter_number st2 = (j + 1)%Z.
Proof.
  intros Hrun Hl Hfiles _ Hl2.
  destruct (initial_chapter_number_above st entries Hl) as [Hone Hbelow].
  destruct (create_epub_returns cfg net st st' net' Hrun)
    as [st1 [added [j [_ [Hc [_ [Hp [Hbase [Hl1 [Hf [Hj [_ Hst]]]]]]]]]]]].
  set (name := range_name (initial_chapter_number st) j) in *.
  assert (Hm : match_range name = Some (initial_chapter_number st, j))
    by (apply match_range_range_name; lia).
  assert (Hnew : listed_as st1 (basename (output_file_path st1)) = None).
  { rewrite Hbase. unfold listed_as. rewrite Hl1, Hl.
    destruct (find (fun e => str_eqb (fst e) name) entries)
      as [[n b]|] eqn:E; [|reflexivity].
    exfalso. apply find_some in E. destruct E as [Hin Hn].
    cbn [fst] in Hn. apply str_eqb_eq in Hn. subst n. destruct b.
    - assert (Hx : In j (batch_ends entries)).
      { apply In_batch_ends. exists name, (initial_chapter_number st). auto. }
      apply Hbelow in Hx. lia.
    - rewrite (Hfiles name Hin) in Hm. discriminate. }
  destruct (make_output_dir_fields st1) as [Mc Mf].
  pose proof (make_output_dir_path st1) as Mp.
  destruct (make_output_dir_cases st1)
    as [[Hk _] | [_ [Hready Hlist]]]; [congruence|].
  rewrite Hnew, Hl1, Hl, Hbase in Hlist. rewrite Hready in Hst. subst st'.
  exists j. split; [exact Hj|].
  cbn [add_epub_file output_file_path listing epub_files chapters].
  rewrite Mp, Mf, Mc. split; [exact Hp|]. split; [exact Hlist|].
  split; [rewrite Hf; reflexivity|].
  unfold initial_chapter_number at 1, get_last_chapter_scraped.
  rewrite Hl2. cbn [add_epub_file listing]. rewrite Hlist.
  pose proof (highest_end_spec (entries ++ [(name, true)]) None) as Hspec.
  rewrite batch_ends_app in Hspec. cbn [batch_ends] in Hspec.
  rewrite Hm in Hspec.
  destruct (highest_end (entries ++ [(name, true)]) None) as [m|].
  - destruct Hspec as [[H | H] [_ Hall]]; [discriminate|].
    assert (j <= m)%Z by (apply Hall, in_or_app; right; left; reflexivity).
    apply in_app_or in H. destruct H as [H | [H | []]].
    + apply Hbelow in H. lia.
    + lia.
  - destruct Hspec as [_ Hnil]. destruct (batch_ends entries); discriminate.
Qed.

Lemma next_batch_follows_report_witness :
  let cfg := sample_cfg 3 2 (Some ch1) in
  let entries := [ (list_ascii_of_string "Links.txt", false);
                   (range_name 1 10, true) ] in
  let st := set_listing (set_links_txt fresh (Some (ch1 ++ [LF])))
              (Some entries) in
  let both := [ always (Got (page_with (Some some_text) (Some ch2)));
                always (Got (page_with (Some some_text) None)) ] in
  exists st' j,
    create_epub cfg both st = (Returned tt, st', [])
    /\ listing st' = Some (entries ++ [(range_name 11 j, true)])
    /\ initial_chapter_number (set_listing fresh (listing st')) = (j + 1)%Z.
Proof.
  intros cfg entries st both.
  destruct (create_epub cfg both st) as [[res st'] net'] eqn:Hrun.
  assert (Hres : res = Returned tt /\ net' = []).
  { vm_compute in Hrun. inversion Hrun; subst. split; reflexivity. }
  destruct Hres as [-> ->].
  destruct (next_batch_follows_report cfg both st st' [] entries
              (set_listing fresh (listing st')) Hrun eq_refl)
    as [j [_ [_ [Hl [_ Hi]]]]].
  - intros name [H | [H | []]]; inversion H. reflexivity.
  - reflexivity.
  - reflexivity.
  - exists st', j. split; [reflexivity|]. split; [exact Hl | exact Hi].
Defined.

(** ** Reading the frontier back *)

Lemma drop_while_split (p : ascii -> bool) (s : str) :
  exists dropped, s = dropped ++ drop_while p s.
Proof.
  induction s as [|c s [d IH]]; [exists []; reflexivity|].
  cbn [drop_while]. destruct (p c).
  - exists (c :: d). cbn [app]. rewrite <- IH. reflexivity.
  - exists []. reflexivity.
Qed.

Lemma drop_while_head (p : ascii -> bool) (s : str) (c : ascii) (t : str) :
  drop_while p s = c :: t -> p c = false.
Proof.
  induction s as [|a s IH]; cbn [drop_while]; [discriminate|].
  destruct (p a) eqn:E; [exact IH|].
  intros H. inversion H; subst. exact E.
Qed.

Lemma drop_while_twice (p : ascii -> bool) (s : str) :
  drop_while p (drop_while p s) = drop_while p s.
Proof.
  destruct (drop_while p s) as [|c t] eqn:E; [reflexivity|].
  cbn [drop_while]. rewrite (drop_while_head p s c t E). reflexivity.
Qed.

(** Stripping is done once and for all. *)
Lemma strip_idempotent (l : str) : strip (strip l) = strip l.
Proof.
  unfold strip, lstrip, rstrip. set (t := drop_while is_space l).
  assert (Hhead : drop_while is_space (rev (drop_while is_space (rev t)))
                  = rev (drop_while is_space (rev t))).
  { destruct (drop_while_split is_space (rev t)) as [d Hd].
    assert (Ht : t = rev (drop_while is_space (rev t)) ++ rev d).
    { rewrite <- (rev_involutive t), Hd at 1. apply rev_app_distr. }
    destruct (rev (drop_while is_space (rev t))) as [|c p] eqn:Ep;
      [reflexivity|].
    cbn [drop_while].
    assert (Hc : is_space c = false).
    { apply (drop_while_head is_space l c (p ++ rev d)). exact Ht. }
    rewrite Hc. reflexivity. }
  rewrite Hhead, rev_involutive, drop_while_twice. reflexivity.
Qed.

Lemma filter_last (A : Type) (f : A -> bool) (l : list A) (x : A)
    (others : list A) :
  rev (filter f l) = x :: others ->
  exists before after,
    l = before ++ x :: after /\ f x = true
    /\ Forall (fun y => f y = false) after.
Proof.
  revert x others. induction l as [|y l IH] using rev_ind; intros x others H.
  - discriminate.
  - rewrite filter_app, rev_app_distr in H. cbn [filter] in H.
    destruct (f y) eqn:E.
    + cbn [rev app] in H. inversion H; subst.
      exists l, []. repeat split; [exact E | constructor].
    + cbn [rev app] in H. destruct (IH _ _ H) as [b [a [-> [Hx Ha]]]].
      exists b, (a ++ [y]). rewrite <- app_assoc. repeat split; [exact Hx|].
      apply Forall_app. split; [exact Ha | repeat constructor; exact E].
Qed.

(** X10: what [get_url] returns from an existing frontier file is the last
    line that is not blank, stripped: it is not empty, has nothing left to
    strip, and every line after it is blank.  The operator is not asked and
    nothing is written. *)
Theorem get_url_last_nonblank (st : State) (stored u : str) (st' : State) :
  links_txt st = Some stored ->
  get_url st = (Returned (Some u), st') ->
  st' = st
  /\ u <> []
  /\ strip u = u
  /\ exists before line after,
       readlines stored = before ++ line :: after
       /\ u = strip line
       /\ Forall (fun l => strip l = []) after.
Proof.
  intros Hf Hrun. unfold get_url in Hrun. rewrite Hf in Hrun.
  rewrite <- map_rev in Hrun.
  destruct (rev (filter nonblank (readlines stored))) as [|line others] eqn:E;
    [discriminate|].
  cbn [map] in Hrun. inversion Hrun; subst. clear Hrun.
  destruct (filter_last _ nonblank _ _ _ E) as [before [after [Hl [Hn Ha]]]].
  split; [reflexivity|]. split; [|split].
  - unfold nonblank in Hn. destruct (strip line); [discriminate|discriminate].
  - apply strip_idempotent.
  - exists before, line, after. repeat split; [exact Hl|].
    eapply Forall_impl; [|exact Ha].
    intros l Hb. unfold nonblank in Hb. destruct (strip l); [reflexivity|discriminate].
Qed.

Lemma get_url_last_nonblank_witness :
  let stored := list_ascii_of_string "https://example.com/ch/1" ++ [LF]
                ++ list_ascii_of_string "  https://example.com/ch/2 " ++ [CR; LF]
                ++ list_ascii_of_string "   " ++ [LF] in
  let st := set_links_txt fresh (Some stored) in
  get_url st = (Returned (Some ch2), st) /\ strip ch2 = ch2.
Proof.
  intros stored st.
  assert (Hrun : get_url st = (Returned (Some ch2), st)) by reflexivity.
  split; [exact Hrun|].
  apply (get_url_last_nonblank st stored ch2 st eq_refl Hrun).
Defined.

Lemma write_to_file_then_last (st : State) (v : str) :
  newline_terminated (stored_text st) -> single_line v ->
  exists stored1 before last_line,
    links_txt (write_to_file st (Some v)) = Some stored1
    /\ readlines stored1 = before ++ [last_line]
    /\ strip last_line = v.
Proof.
  intros Ht [Hs Hv]. unfold write_to_file, stored_text in *.
  destruct (links_txt st) as [stored|] eqn:Hf.
  - destruct (rev (readlines stored)) as [|last_line others] eqn:Hr.
    + exists (stored ++ v ++ [LF]), (readlines stored), (v ++ [LF]).
      repeat split.
      * apply readlines_append; assumption.
      * apply strip_line; exact Hs.
    + destruct (str_eqb (strip last_line) v) eqn:E.
      * exists stored, (rev others), last_line. repeat split.
        -- exact Hf.
        -- rewrite <- (rev_involutive (readlines stored)), Hr. reflexivity.
        -- apply str_eqb_eq; exact E.
      * exists (stored ++ v ++ [LF]), (readlines stored), (v ++ [LF]).
        repeat split.
        -- apply readlines_append; assumption.
        -- apply strip_line; exact Hs.
  - exists (v ++ [LF]), [], (v ++ [LF]). repeat split.
    + apply (readlines_append [] v); [left; reflexivity | exact Hv].
    + apply strip_line; exact Hs.
Qed.

(** X11: what [write_to_file] appends is what [get_url] loads: for a URL of
    one line that is not empty and a frontier file that is absent, empty or
    ends with a line feed, [get_url] after the append returns that URL,
    without asking the operator and without writing. *)
Theorem get_url_after_write_to_file (st : State) (v : str) :
  newline_terminated (stored_text st) -> single_line v -> v <> [] ->
  get_url (write_to_file st (Some v))
  = (Returned (Some v), write_to_file st (Some v)).
Proof.
  intros Ht Hv Hne.
  destruct (write_to_file_then_last st v Ht Hv)
    as [stored1 [before [last_line [Hf [Hl Hs]]]]].
  unfold get_url. rewrite Hf, Hl, filter_app, map_app, rev_app_distr.
  cbn [filter]. unfold nonblank at 1. rewrite Hs.
  destruct v as [|c v]; [congruence|]. cbn [map rev app]. rewrite Hs.
  reflexivity.
Qed.

Lemma get_url_after_write_to_file_witness :
  let st := set_links_txt fresh (Some (ch1 ++ [LF])) in
  get_url (write_to_file st (Some ch2))
  = (Returned (Some ch2), write_to_file st (Some ch2))
  /\ stored_text (write_to_file st (Some ch2)) = ch1 ++ [LF] ++ ch2 ++ [LF].
Proof.
  intros st. split; [|reflexivity].
  apply (get_url_after_write_to_file st ch2).
  - right. exists ch1. reflexivity.
  - split; [reflexivity|].
    intros c Hc. split; intros ->; vm_compute in Hc; intuition discriminate.
  - discriminate.
Defined.

(** ** Next links and batch names *)

(** X12: a next link that [find_next_chapter_link] returns always has the
    configured domain inside it, and it ends with the [href] of the button;
    the call fails, with [TypeError], exactly when the button has no
    [href]. *)
Theorem find_next_chapter_link_has_domain (cfg : Config) (page : Page) :
  (forall u,
      find_next_chapter_link cfg page = Returned (Some u) ->
      (exists a b, u = a ++ domain_name cfg ++ b)
      /\ exists link, next_button page = Some (Some link)
                      /\ (u = link \/ u = domain_name cfg ++ link))
  /\ (forall e, find_next_chapter_link cfg page = Raised e <->
                e = TypeError /\ next_button page = Some None).
Proof.
  unfold find_next_chapter_link. split.
  - intros u H. destruct (next_button page) as [[link|]|]; try discriminate.
    destruct (contains (domain_name cfg) link) eqn:E; inversion H; subst.
    + split; [apply contains_spec; exact E|]. exists u. auto.
    + split; [exists [], link; reflexivity|]. exists link. auto.
  - intros e. destruct (next_button page) as [[link|]|].
    + destruct (contains (domain_name cfg) link); split;
        [discriminate | intros [_ H]; discriminate
        | discriminate | intros [_ H]; discriminate].
    + split; [intros H; inversion H; auto | intros [-> _]; reflexivity].
    + split; [discriminate | intros [_ H]; discriminate].
Qed.

Lemma find_next_chapter_link_has_domain_witness :
  exists a b,
    list_ascii_of_string "https://example.com/ch/2"
    = a ++ domain_name (sample_cfg 3 5 None) ++ b.
Proof.
  apply (proj1 (find_next_chapter_link_has_domain (sample_cfg 3 5 None)
                  (page_with None (Some (list_ascii_of_string "/ch/2"))))
           (list_ascii_of_string "https://example.com/ch/2") eq_refl).
Defined.

Lemma span_digits_stop (s : str) :
  match s with [] => True | c :: _ => is_digit c = false end ->
  span_digits s = ([], s).
Proof.
  destruct s as [|c s]; [reflexivity|].
  intros H. cbn [span_digits]. rewrite H. reflexivity.
Qed.

(** X13: the batch pattern is anchored at the start of a name only: a name
    that goes on after [{initial}-{end}] with anything but a digit is read
    as that batch, and a name that does not start with a digit is no
    batch. *)
Theorem match_range_anchored_at_start (a b : Z) (suffix name : str) :
  ((0 <= a)%Z -> (0 <= b)%Z ->
   match suffix with [] => True | c :: _ => is_digit c = false end ->
   match_range (range_name a b ++ suffix) = Some (a, b))
  /\ (match name with [] => True | c :: _ => is_digit c = false end ->
      match_range name = None).
Proof.
  split.
  - intros Ha Hb Hsuffix.
    destruct (format_int_nonneg a Ha) as [da [Ea [Na [Da Va]]]].
    destruct (format_int_nonneg b Hb) as [db [Eb [Nb [Db Vb]]]].
    unfold range_name, match_range. rewrite Ea, Eb, <- !app_assoc.
    rewrite span_digits_app; [|exact Da|reflexivity].
    destruct da as [|c1 t1]; [congruence|].
    cbn [list_ascii_of_string app].
    change (ascii_eqb "-"%char "-"%char) with true. cbv iota.
    rewrite span_digits_app; [|exact Db|exact Hsuffix].
    destruct db as [|c2 t2]; [congruence|].
    rewrite Va, Vb. reflexivity.
  - intros Hname. unfold match_range.
    rewrite span_digits_stop by exact Hname. reflexivity.
Qed.

Lemma match_range_anchored_at_start_witness :
  match_range (list_ascii_of_string "1-10.bak") = Some (1, 10)%Z
  /\ match_range (list_ascii_of_string "Links.txt") = None.
Proof.
  split.
  - apply (proj1 (match_range_anchored_at_start 1 10
                    (list_ascii_of_string ".bak") [])); [lia | lia | reflexivity].
  - apply (proj2 (match_range_anchored_at_start 0 0 []
                    (list_ascii_of_string "Links.txt"))). reflexivity.
Defined.

(** X14: the order in which the directory is listed does not matter to
    [get_last_chapter_scraped]. *)
Theorem get_last_chapter_scraped_any_order (st st' : State)
    (entries entries' : list (str * bool)) :
  listing st = Some entries ->
  listing st' = Some entries' ->
  Permutation entries entries' ->
  get_last_chapter_scraped st = get_last_chapter_scraped st'.
Proof.
  intros Hl Hl' Hperm. unfold get_last_chapter_scraped. rewrite Hl, Hl'.
  assert (Hends : forall x, In x (batch_ends entries)
                            <-> In x (batch_ends entries')).
  { intros x. rewrite !In_batch_ends. split.
    - intros [name [a [Hin Hm]]]. exists name, a.
      split; [exact (Permutation_in _ Hperm Hin) | exact Hm].
    - intros [name [a [Hin Hm]]]. exists name, a.
      split; [exact (Permutation_in _ (Permutation_sym Hperm) Hin) | exact Hm]. }
  pose proof (highest_end_spec entries None) as H1.
  pose proof (highest_end_spec entries' None) as H2.
  destruct (highest_end entries None) as [m|],
           (highest_end entries' None) as [m'|].
  - destruct H1 as [[H1 | H1] [_ A1]]; [discriminate|].
    destruct H2 as [[H2 | H2] [_ A2]]; [discriminate|].
    f_equal. apply Z.le_antisymm.
    + apply A2, Hends; exact H1.
    + apply A1, Hends; exact H2.
  - destruct H1 as [[H1 | H1] _]; [discriminate|].
    destruct H2 as [_ H2]. apply Hends in H1. rewrite H2 in H1. destruct H1.
  - destruct H2 as [[H2 | H2] _]; [discriminate|].
    destruct H1 as [_ H1]. apply Hends in H2. rewrite H1 in H2. destruct H2.
  - reflexivity.
Qed.

Lemma get_last_chapter_scraped_any_order_witness :
  get_last_chapter_scraped
    (set_listing fresh (Some [(range_name 1 10, true); (range_name 11 20, true)]))
  = get_last_chapter_scraped
      (set_listing fresh (Some [(range_name 11 20, true); (range_name 1 10, true)])).
Proof.
  apply (get_last_chapter_scraped_any_order
           (set_listing fresh (Some [(range_name 1 10, true); (range_name 11 20, true)]))
           (set_listing fresh (Some [(range_name 11 20, true); (range_name 1 10, true)]))
           [(range_name 1 10, true); (range_name 11 20, true)]
           [(range_name 11 20, true); (range_name 1 10, true)]).
  - reflexivity.
  - reflexivity.
  - apply perm_swap.
Defined.

(** ** Edges of the batch *)

(** X15: a batch size that is not positive: [create_epub] makes no request
    and harvests nothing; the loop variable is never bound, so after the
    start URL has gone through [write_to_file] the call ends in
    [UnboundLocalError], with no batch directory named and no book
    written. *)
Theorem create_epub_empty_batch `{L : Libraries} (cfg : Config) (net : Web)
    (st : State) :
  (batch_size cfg <= 0)%Z ->
  create_epub cfg net st
  = (Raised UnboundLocalError, write_to_file st (initial_url cfg), net)
  /\ chapters (write_to_file st (initial_url cfg)) = chapters st
  /\ output_file_path (write_to_file st (initial_url cfg))
     = output_file_path st
  /\ listing (write_to_file st (initial_url cfg)) = listing st
  /\ epub_files (write_to_file st (initial_url cfg)) = epub_files st.
Proof.
  intros Hsize. split.
  - unfold create_epub, scrape_worker.
    replace (Z.to_nat (batch_size cfg)) with O by lia. reflexivity.
  - destruct (write_to_file_fields st (initial_url cfg))
      as [Hc [_ [Hp [Hl [Hf _]]]]]. auto.
Qed.

Lemma create_epub_empty_batch_witness :
  let cfg := sample_cfg 3 0 (Some ch2) in
  let st := set_links_txt fresh (Some (ch1 ++ [LF])) in
  exists st',
    create_epub cfg [always (Got (page_with (Some some_text) None))] st
    = (Raised UnboundLocalError, st',
       [always (Got (page_with (Some some_text) None))])
    /\ stored_text st' = ch1 ++ [LF] ++ ch2 ++ [LF].
Proof.
  intros cfg st. eexists. split.
  - apply (proj1 (create_epub_empty_batch cfg _ st ltac:(cbn; lia))).
  - reflexivity.
Defined.



(** ** A run of appends *)

Lemma lines_text_snoc (urls : list str) (v : str) :
  lines_text (urls ++ [v]) = lines_text urls ++ v ++ [LF].
Proof.
  unfold lines_text. rewrite map_app, concat_app. cbn [map List.concat].
  rewrite app_nil_r. reflexivity.
Qed.

Lemma lines_text_terminated (urls : list str) :
  newline_terminated (lines_text urls).
Proof.
  destruct urls as [|u urls] using rev_ind; [left; reflexivity|].
  right. exists (lines_text urls ++ u). rewrite lines_text_snoc, <- app_assoc.
  reflexivity.
Qed.

Lemma lines_text_empty (urls : list str) : lines_text urls = [] -> urls = [].
Proof.
  destruct urls as [|u urls]; [reflexivity|].
  unfold lines_text. cbn [map List.concat]. destruct u; discriminate.
Qed.

(** A file of one-line URLs reads back as those lines. *)
Lemma readlines_lines_text (urls : list str) :
  Forall single_line urls ->
  readlines (lines_text urls) = map (fun v => v ++ [LF]) urls.
Proof.
  induction urls as [|u urls IH] using rev_ind; intros H; [reflexivity|].
  apply Forall_app in H. destruct H as [Hurls Hu].
  inversion Hu as [|u' l' [_ Hbreak] _]; subst.
  rewrite lines_text_snoc, readlines_append, IH, map_app;
    [reflexivity | exact Hurls | apply lines_text_terminated | exact Hbreak].
Qed.

Lemma push_url_single_line (urls : list str) (v : str) :
  Forall single_line urls -> single_line v ->
  Forall single_line (push_url urls v).
Proof.
  intros Hu Hv. unfold push_url. destruct (rev urls) as [|l others].
  - constructor; [exact Hv | constructor].
  - destruct (str_eqb l v); [exact Hu|].
    apply Forall_app. split; [exact Hu | constructor; [exact Hv | constructor]].
Qed.

Lemma write_to_file_push (st : State) (urls : list str) (v : str) :
  stored_text st = lines_text urls ->
  Forall single_line urls -> single_line v ->
  stored_text (write_to_file st (Some v)) = lines_text (push_url urls v).
Proof.
  intros Hst Hu Hv. unfold write_to_file, stored_text in *.
  destruct (links_txt st) as [stored|] eqn:Hf.
  - subst stored. rewrite readlines_lines_text by exact Hu.
    rewrite <- map_rev. unfold push_url. unfold str in *.
    destruct (rev urls) as [|l others] eqn:Hr.
    + assert (urls = []) as ->
        by (rewrite <- (rev_involutive urls), Hr; reflexivity).
      cbn [rev map links_txt set_links_txt]. unfold lines_text.
      cbn [map List.concat app]. rewrite app_nil_r. reflexivity.
    + cbn [map].
      assert (Hl : single_line l).
      { rewrite Forall_forall in Hu. apply Hu. apply in_rev. rewrite Hr.
        left; reflexivity. }
      rewrite (strip_line l (proj1 Hl)).
      destruct (str_eqb l v).
      * rewrite Hf. reflexivity.
      * cbn [links_txt set_links_txt]. symmetry. apply lines_text_snoc.
  - symmetry in Hst. apply lines_text_empty in Hst. subst urls.
    cbn [links_txt set_links_txt]. unfold push_url, lines_text.
    cbn [rev map List.concat]. rewrite app_nil_r. reflexivity.
Qed.

(** X17: from a frontier file that is absent or empty, after any run of
    appends of one-line URLs the file holds those URLs, one per line and in
    their order, with every URL that repeats the one before it left out. *)
Theorem frontier_after_appends (st : State) (urls : list str) :
  stored_text st = [] ->
  Forall single_line urls ->
  stored_text (appends st urls) = lines_text (fold_left push_url urls [])
  /\ readlines (stored_text (appends st urls))
     = map (fun v => v ++ [LF]) (fold_left push_url urls []).
Proof.
  intros Hst Hu.
  assert (Hgen : forall vs st0 known,
             stored_text st0 = lines_text known ->
             Forall single_line known -> Forall single_line vs ->
             stored_text (appends st0 vs) = lines_text (fold_left push_url vs known)
             /\ Forall single_line (fold_left push_url vs known)).
  { induction vs as [|v vs IH]; intros st0 known H0 Hk Hvs.
    - split; assumption.
    - inversion Hvs as [|v' vs' Hv Hrest]; subst.
      unfold appends. cbn [fold_left]. apply IH.
      + apply write_to_file_push; assumption.
      + apply push_url_single_line; assumption.
      + exact Hrest. }
  destruct (Hgen urls st [] Hst (Forall_nil _) Hu) as [Htext Hlines].
  split; [exact Htext|].
  rewrite Htext. apply readlines_lines_text. exact Hlines.
Qed.

Ltac single_line_now :=
  split; [reflexivity
         | intros c Hc; split; intros ->; vm_compute in Hc;
           intuition discriminate].

Lemma frontier_after_appends_witness :
  stored_text (appends fresh [ch1; ch1; ch2; ch2; ch1])
  = ch1 ++ [LF] ++ ch2 ++ [LF] ++ ch1 ++ [LF].
Proof.
  assert (Hs : Forall single_line [ch1; ch1; ch2; ch2; ch1])
    by (repeat (constructor; [single_line_now|]); constructor).
  rewrite (proj1 (frontier_after_appends fresh [ch1; ch1; ch2; ch2; ch1]
                    eq_refl Hs)).
  reflexivity.
Defined.

(** ** The seed URL *)

Lemma drop_while_app_all (p : ascii -> bool) (s t : str) :
  drop_while p s = [] -> drop_while p (s ++ t) = drop_while p t.
Proof.
  induction s as [|c s IH]; cbn [drop_while app]; [reflexivity|].
  destruct (p c); [exact IH | discriminate].
Qed.

(** The line feed at the end of a line makes no difference to [strip]. *)
Lemma strip_app_LF (u : str) : strip (u ++ [LF]) = strip u.
Proof.
  unfold strip, lstrip, rstrip.
  destruct (drop_while is_space u) as [|c t] eqn:E.
  - rewrite (drop_while_app_all is_space u [LF] E). reflexivity.
  - rewrite (drop_while_app_keep is_space u t c E [LF]).
    change (c :: t ++ [LF]) with ((c :: t) ++ [LF]).
    rewrite rev_app_distr.
    change (rev [LF] ++ rev (c :: t)) with (LF :: rev (c :: t)).
    change (drop_while is_space (LF :: rev (c :: t)))
      with (if is_space LF then drop_while is_space (rev (c :: t))
            else LF :: rev (c :: t)).
    rewrite is_space_LF. reflexivity.
Qed.

(** X18: with no frontier file, [get_url] returns the line the operator
    types as it is and stores it as the one line of the file; the next
    [get_url] returns the stripped form of that line, or [None] when the
    line was blank. *)
Theorem seed_url_reloaded_stripped (st : State) (u : str) (rest : list str) :
  links_txt st = None ->
  stdin st = u :: rest ->
  no_line_break u ->
  exists st1,
    get_url st = (Returned (Some u), st1)
    /\ stdin st1 = rest
    /\ links_txt st1 = Some (u ++ [LF])
    /\ (strip u <> [] -> get_url st1 = (Returned (Some (strip u)), st1))
    /\ (strip u = [] -> get_url st1 = (Returned None, st1)).
Proof.
  intros Hf Hin Hu.
  exists (set_links_txt (set_stdin st rest) (Some (u ++ [LF]))).
  assert (Hread : readlines (u ++ [LF]) = [u ++ [LF]])
    by (apply (readlines_append [] u); [left; reflexivity | exact Hu]).
  split; [|split; [reflexivity | split; [reflexivity | split]]].
  - unfold get_url, input. rewrite Hf, Hin. unfold write_to_file.
    cbn [links_txt set_stdin]. rewrite Hf. reflexivity.
  - intros Hne. unfold get_url. cbn [links_txt set_links_txt].
    rewrite Hread. cbn [filter]. unfold nonblank. rewrite strip_app_LF.
    destruct (strip u) as [|c t] eqn:E; [congruence|].
    cbn [map rev app]. rewrite strip_app_LF, E. reflexivity.
  - intros Hblank. unfold get_url. cbn [links_txt set_links_txt].
    rewrite Hread. cbn [filter]. unfold nonblank.
    rewrite strip_app_LF, Hblank. reflexivity.
Qed.

Lemma seed_url_reloaded_stripped_witness :
  let typed : str := " https://example.com/ch/1  " in
  let st := set_stdin fresh [typed] in
  exists st1,
    get_url st = (Returned (Some typed), st1)
    /\ get_url st1 = (Returned (Some ch1), st1).
Proof.
  intros typed st.
  destruct (seed_url_reloaded_stripped st typed [] eq_refl eq_refl)
    as [st1 [Hfirst [_ [_ [Hsecond _]]]]].
  - intros c Hc. split; intros ->; vm_compute in Hc; intuition discriminate.
  - exists st1. split; [exact Hfirst|]. apply Hsecond. discriminate.
Defined.

(** ** Failures inside a batch *)

Section BatchFailure.
Context {L : Libraries}.
Variable cfg : Config.

(** A loop that ends in an exception has harvested fewer chapters than it
    had indices to go through. *)
Lemma for_pages_raised_short (n : nat) :
  forall i net st current_url last_valid_url last_i e st' net',
    for_pages cfg n i net st current_url last_valid_url last_i
    = (Raised e, st', net') ->
    (List.length (chapters st') < List.length (chapters st) + n)%nat.
Proof.
  induction n as [|n IH];
    intros i net st current_url last_valid_url last_i e st' net' Hrun;
    cbn [for_pages] in Hrun; [discriminate|].
  destruct (scrape_one_webpage cfg net st current_url i 1)
    as [[[[has_more_pages next_url]|e1|] st1] net1] eqn:Hone;
    apply scrape_one_webpage_chapters in Hone.
  - destruct has_more_pages; [|discriminate].
    destruct Hone as [_ [body [Hc _]]]. apply IH in Hrun.
    rewrite Hc, length_app in Hrun. cbn [List.length] in Hrun. lia.
  - inversion Hrun; subst. destruct Hone as [-> _]. lia.
  - discriminate.
Qed.

(** With a batch size above zero, [create_epub] ends in an exception only
    when the loop over the indices does. *)
Lemma create_epub_raised (net : Web) (st : State) (e : exn) (st' : State)
    (net' : Web) :
  (0 < batch_size cfg)%Z ->
  create_epub cfg net st = (Raised e, st', net') ->
  for_pages cfg (Z.to_nat (batch_size cfg)) (initial_chapter_number st) net st
    (initial_url cfg) (initial_url cfg) None
  = (Raised e, st', net').
Proof.
  intros Hsize Hrun. unfold create_epub in Hrun.
  destruct (scrape_worker cfg (batch_size cfg) net st)
    as [[[[]|e1|] st1] net1] eqn:Hw.
  - destruct (batch_dir_ready (make_output_dir st1)); discriminate.
  - inversion Hrun; subst. clear Hrun. unfold scrape_worker in Hw.
    destruct (for_pages cfg (Z.to_nat (batch_size cfg))
                (initial_chapter_number st) net st (initial_url cfg)
                (initial_url cfg) None)
      as [[[[last_url last_i]|e1|] st1] net1] eqn:Hfor.
    + destruct last_i as [j|]; [discriminate|]. exfalso.
      destruct (for_pages_same_disk cfg _ _ _ _ _ _ _ _ _ _ Hfor)
        as [_ Hbound].
      apply (Hbound last_url None eq_refl); [left; lia | reflexivity].
    + inversion Hw; subst. reflexivity.
    + discriminate.
  - discriminate.
Qed.

End BatchFailure.

(** X19: an exception of a fetch ends the batch at whatever index it comes.
    At any point of the loop over the indices, a fetch that raises ends the
    loop in the same exception, and a fetch that returns a chapter hands the
    loop on to the next index; a loop that ends in an exception makes
    [create_epub] end in it, in the state the fetch left.  With a batch
    size above zero, a [create_epub] that ends in an exception has changed
    nothing on disk (frontier file, directories, books, and the output path
    of the object as well); the chapters harvested before the failure,
    fewer than the batch size and numbered from the start index on, are in
    the object and nowhere else. *)
Theorem fetch_failure_ends_batch `{L : Libraries} (cfg : Config) :
  (forall n i net st current_url last_valid_url last_i e st1 net1,
      scrape_one_webpage cfg net st current_url i 1 = (Raised e, st1, net1) ->
      for_pages cfg (S n) i net st current_url last_valid_url last_i
      = (Raised e, st1, net1))
  /\ (forall n i net st current_url last_valid_url last_i next_url st1 net1,
      scrape_one_webpage cfg net st current_url i 1
      = (Returned (true, next_url), st1, net1) ->
      for_pages cfg (S n) i net st current_url last_valid_url last_i
      = for_pages cfg n (i + 1) net1 st1 next_url
          (match next_url with Some _ => next_url | None => last_valid_url end)
          (Some i))
  /\ (forall net st e st' net',
      for_pages cfg (Z.to_nat (batch_size cfg)) (initial_chapter_number st)
        net st (initial_url cfg) (initial_url cfg) None
      = (Raised e, st', net') ->
      create_epub cfg net st = (Raised e, st', net'))
  /\ (forall net st e st' net',
      (0 < batch_size cfg)%Z ->
      create_epub cfg net st = (Raised e, st', net') ->
      same_disk st st'
      /\ exists added,
           chapters st' = chapters st ++ added
           /\ map title added
              = consecutive_titles (initial_chapter_number st)
                  (List.length added)
           /\ (List.length added < Z.to_nat (batch_size cfg))%nat).
Proof.
  split; [|split; [|split]].
  - intros n i net st current_url last_valid_url last_i e st1 net1 Hone.
    cbn [for_pages]. rewrite Hone. reflexivity.
  - intros n i net st current_url last_valid_url last_i next_url st1 net1 Hone.
    cbn [for_pages]. rewrite Hone. reflexivity.
  - intros net st e st' net' Hfor. unfold create_epub, scrape_worker.
    rewrite Hfor. reflexivity.
  - intros net st e st' net' Hsize Hrun.
    apply (create_epub_raised cfg net st e st' net' Hsize) in Hrun.
    destruct (for_pages_same_disk cfg _ _ _ _ _ _ _ _ _ _ Hrun) as [Hdisk _].
    destruct (for_pages_count cfg _ _ _ _ _ _ _ _ _ _ Hrun)
      as [added [Hc [_ [Ht _]]]].
    pose proof (for_pages_raised_short cfg _ _ _ _ _ _ _ _ _ _ Hrun) as Hshort.
    split; [exact Hdisk|]. exists added. split; [exact Hc|].
    split; [exact Ht|]. rewrite Hc, length_app in Hshort. lia.
Qed.

Lemma fetch_failure_ends_batch_witness :
  let cfg := sample_cfg 1 3 (Some ch1) in
  let st := set_links_txt fresh (Some (ch1 ++ [LF])) in
  let net := [ always (Got (page_with (Some some_text) (Some ch2)));
               always (Got (page_with None None)) ] in
  exists st',
    create_epub cfg net st = (Raised EOFError, st', [])
    /\ same_disk st st'
    /\ map title (chapters st') = [list_ascii_of_string "Chapter 1"].
Proof.
  intros cfg st net.
  destruct (create_epub cfg net st) as [[res st'] net'] eqn:Hrun.
  assert (Hres : res = Raised EOFError /\ net' = []
                 /\ List.length (chapters st') = 1%nat).
  { vm_compute in Hrun. inversion Hrun; subst. repeat split. }
  destruct Hres as [-> [-> Hlen]].
  destruct (proj2 (proj2 (proj2 (fetch_failure_ends_batch cfg)))
              net st EOFError st' [] ltac:(vm_compute; reflexivity) Hrun)
    as [Hdisk [added [Hc [Ht _]]]].
  cbn [chapters st set_links_txt fresh app] in Hc.
  exists st'. split; [reflexivity|]. split; [exact Hdisk|].
  rewrite Hc in Hlen |- *. rewrite Hlen in Ht. exact Ht.
Defined.
